(** * fastNLP.core.losses: a shallow embedding

    The module binds the formal parameters of a loss function to the keys of
    two dictionaries (the output of the network's forward pass and the
    targets of the data set), looks for missing and duplicated keys, and calls
    the loss function with the resolved keyword arguments.  A second, older
    interface ([Loss]) wraps a torch loss function behind a list of
    pre-processing functions.

    Python dictionaries keep insertion order and the code iterates over them,
    so a dictionary is an association list with the update of [dict.update]
    written out.  A method of an object is a function in a state monad over
    the object's fields that may raise. *)

From Stdlib Require Import List String Ascii Bool Arith ZArith Lia.
Import ListNotations.
Open Scope string_scope.
Open Scope list_scope.

Set Implicit Arguments.

(** ** Python dictionaries with string keys *)

Module Dict.

Definition dict (V : Type) : Type := list (string * V).

Section Ops.
Variable V : Type.

(** [d.get(k)] *)
Fixpoint get (k : string) (d : dict V) : option V :=
  match d with
  | [] => None
  | (k', v) :: d' => if String.eqb k k' then Some v else get k d'
  end.

(** [k in d] *)
Definition mem (k : string) (d : dict V) : bool :=
  match get k d with Some _ => true | None => false end.

(** [d.keys()] and [d.items()], in iteration order *)
Definition keys (d : dict V) : list string := map fst d.
Definition items (d : dict V) : list (string * V) := d.

(** [d.update({k: v})]: an existing key keeps its place and takes the new
    value, a new key goes to the end. *)
Fixpoint set (k : string) (v : V) (d : dict V) : dict V :=
  match d with
  | [] => [(k, v)]
  | (k', v') :: d' =>
      if String.eqb k k' then (k', v) :: d' else (k', v') :: set k v d'
  end.

(** [d.update(e)] for a dictionary (or a sequence of pairs) [e] *)
Definition update (d : dict V) (e : list (string * V)) : dict V :=
  fold_left (fun acc kv => set (fst kv) (snd kv) acc) e d.

(** [{k: v for k, v in l}] *)
Definition of_items (l : list (string * V)) : dict V := update [] l.
End Ops.

End Dict.

Import Dict.

(** ** Values, exceptions and results *)

(** The Python values the claims distinguish: a [torch.Tensor] with its
    [size()], and values that are no tensor. *)
Inductive pyobj : Type :=
| Tensor (size : list nat) (data : list Z)
| PyNone
| PyInt (n : Z)
| PyStr (s : string)
| PyList (l : list Z).

(** [isinstance(v, torch.Tensor)] *)
Definition is_tensor (v : pyobj) : bool :=
  match v with Tensor _ _ => true | _ => false end.

(** [isinstance(v, torch.Tensor) and len(v.size()) == 0] *)
Definition is_scalar_tensor (v : pyobj) : bool :=
  match v with
  | Tensor size _ => Nat.eqb (List.length size) 0
  | _ => false
  end.

(** [type(v)] as it prints in an f-string *)
Definition type_repr (v : pyobj) : string :=
  match v with
  | Tensor _ _ => "<class 'torch.Tensor'>"
  | PyNone => "<class 'NoneType'>"
  | PyInt _ => "<class 'int'>"
  | PyStr _ => "<class 'str'>"
  | PyList _ => "<class 'list'>"
  end.

(** Modelled from the spec: [CheckRes] and [CheckError] are declared in
    fastNLP.core.utils, which is not part of the sources at hand.
    [CheckRes] is a named tuple; its fields are the six that the
    construction site of [LossInForward.get_loss] names.  [CheckError]
    carries the [CheckRes] and the printed signature. *)
Record CheckRes : Type := mkCheckRes {
  missing : list string;
  unused : list string;
  duplicated : list string;
  required : list string;
  all_needed : list string;
  varargs : list string
}.

Inductive exn : Type :=
| RuntimeError (msg : string)
| TypeError (msg : string)
| KeyError (key : string)
| NotImplementedError
| CheckError (check_res : CheckRes) (func_signature : string).

Inductive result (A : Type) : Type :=
| Ok (a : A)
| Raise (e : exn).
Arguments Ok {A} a.
Arguments Raise {A} e.

Definition is_CheckError {A} (r : result A) : bool :=
  match r with Raise (CheckError _ _) => true | _ => false end.

Definition is_TypeError {A} (r : result A) : bool :=
  match r with Raise (TypeError _) => true | _ => false end.

Definition inb (k : string) (l : list string) : bool :=
  existsb (String.eqb k) l.

Definition CheckRes_fields : list string :=
  ["missing"; "unused"; "duplicated"; "required"; "all_needed"; "varargs"].

(** Modelled from the spec: the call [CheckRes(...)] with keyword
    arguments.  A named tuple wants every one of its fields: Python refuses
    with TypeError a call that names a keyword that is no field, and a call
    that leaves a field out. *)
Definition new_CheckRes (kwargs : dict (list string)) : result CheckRes :=
  match filter (fun kv => negb (inb (fst kv) CheckRes_fields)) (items kwargs) with
  | (k, _) :: _ =>
      Raise (TypeError ("__new__() got an unexpected keyword argument '" ++ k ++ "'"))
  | [] =>
      match get "missing" kwargs, get "unused" kwargs, get "duplicated" kwargs,
            get "required" kwargs, get "all_needed" kwargs, get "varargs" kwargs
      with
      | Some m, Some u, Some d, Some r, Some a, Some v =>
          Ok (mkCheckRes m u d r a v)
      | _, _, _, _, _, _ =>
          Raise (TypeError "__new__() missing required positional arguments")
      end
  end.

(** ** Functions and how Python calls them with keyword arguments *)

(** A Python function: what [inspect.getfullargspec] reports of it
    (positional parameters without and with a default, [*args], [**kwargs]),
    the text [get_func_signature] prints, and its body, which gets the bound
    parameters in declaration order followed by the extra keywords. *)
Record pyfunc : Type := mkFunc {
  fn_args : list string;
  fn_defaults : list (string * pyobj);
  fn_varargs : option string;
  fn_varkw : option string;
  fn_signature : string;
  fn_body : dict pyobj -> result pyobj
}.

(** [spect.args]: every positional parameter *)
Definition fn_params (f : pyfunc) : list string :=
  fn_args f ++ map fst (fn_defaults f).

(** the keywords that name no parameter *)
Definition extra_keywords (f : pyfunc) (kwargs : dict pyobj) : dict pyobj :=
  filter (fun kv => negb (inb (fst kv) (fn_params f))) (items kwargs).

(** what the body sees: each parameter with the keyword given for it or
    else its default, then the extra keywords *)
Definition bind_arguments (f : pyfunc) (kwargs : dict pyobj) : dict pyobj :=
  map (fun p => (p, match get p kwargs with Some v => v | None => PyNone end))
      (fn_args f)
  ++ map (fun pd => (fst pd, match get (fst pd) kwargs with
                             | Some v => v
                             | None => snd pd
                             end))
         (fn_defaults f)
  ++ extra_keywords f kwargs.

(** A call of [f] with the keyword arguments [kwargs]: a keyword that names
    no parameter is refused unless the function declares [**kwargs]; a
    parameter without default must be given; a parameter with a default
    takes it when not given. *)
Definition py_call (f : pyfunc) (kwargs : dict pyobj) : result pyobj :=
  match fn_varkw f, extra_keywords f kwargs with
  | None, (k, _) :: _ =>
      Raise (TypeError (fn_signature f ++ " got an unexpected keyword argument '" ++ k ++ "'"))
  | _, _ =>
      match filter (fun p => negb (mem p kwargs)) (fn_args f) with
      | p :: _ =>
          Raise (TypeError (fn_signature f ++ " missing required argument '" ++ p ++ "'"))
      | [] => fn_body f (bind_arguments f kwargs)
      end
  end.

(** ** The helpers of fastNLP.core.utils *)

(** Modelled from the spec: [_get_arg_list], [_map_args], [_build_args] and
    [get_func_signature] are imported from fastNLP.core.utils, which is not
    part of the sources at hand.  They are written after the spec's account
    of the name reconciliation (formal parameter names are mapped to the keys
    of the dictionaries and the computation is invoked with the resolved
    arguments) and after the way losses.py uses their results. *)
Module Utils.

(** Modelled from the spec: [_get_arg_list(func)] gives the parameters
    without default, the names of the parameters with a default ([None] when
    there is none), their default values, and the names of [*args] and
    [**kwargs] when declared. *)
Definition _get_arg_list (func : pyfunc)
  : option (list string) * option (list string) * option (list pyobj)
    * option string * option string :=
  match fn_defaults func with
  | [] => (Some (fn_args func), None, None, fn_varargs func, fn_varkw func)
  | ds => (Some (fn_args func), Some (map fst ds), Some (map snd ds),
           fn_varargs func, fn_varkw func)
  end.

(** Modelled from the spec: [get_func_signature(func)] is the printed
    signature of [func]. *)
Definition get_func_signature (func : pyfunc) : string := fn_signature func.

(** Modelled from the spec: [_map_args(maps, **kwargs)] renames the keys of
    [kwargs]: a key of [maps] becomes the name [maps] gives it, any other key
    stays; the entries are written to the output in the order of [kwargs]. *)
Definition _map_args (maps : dict string) (kwargs : dict pyobj) : dict pyobj :=
  fold_left
    (fun output kv =>
       match get (fst kv) maps with
       | Some name => set name (snd kv) output
       | None => set (fst kv) (snd kv) output
       end)
    (items kwargs) [].

(** Modelled from the spec: [_build_args(func, **kwargs)] keeps of [kwargs]
    what [func] accepts: everything when [func] declares [**kwargs], else
    the defaults of [func] overwritten by the entries of [kwargs] that name
    a parameter. *)
Definition _build_args (func : pyfunc) (kwargs : dict pyobj) : dict pyobj :=
  match fn_varkw func with
  | Some _ => kwargs
  | None =>
      let output := of_items (fn_defaults func) in
      update output
        (filter (fun kv => inb (fst kv) (fn_params func)) (items kwargs))
  end.

(** The call [f(x, **kwargs)] as Python makes it: the dictionary is unpacked
    into keywords beside the argument passed by position, and a keyword that
    bears the name [first] of the parameter bound by position is refused. *)
Definition unpack (fname first : string) (kwargs : dict pyobj)
  : result (dict pyobj) :=
  if mem first kwargs
  then Raise (TypeError (fname ++ "() got multiple values for argument '"
                         ++ first ++ "'"))
  else Ok kwargs.

(** Modelled from the spec: the names of the first parameters in
    [_map_args(maps, **kwargs)] and [_build_args(func, **kwargs)]. *)
Definition _map_args_first : string := "maps".
Definition _build_args_first : string := "func".

End Utils.

Import Utils.

(** ** class LossBase *)

Module LossBase.

(** The fields of an instance.  [get_loss] is the function stored under that
    name (as [NewLoss] and [L1Loss] store it), so the parameters that
    [_get_arg_list] reports are the parameters of the call. *)
Record t : Type := mk {
  param_map : dict string;
  _checked : bool;
  get_loss : pyfunc
}.

(** The instance together with the log of the calls of [get_loss] made so
    far (the keyword arguments of each call, oldest first). *)
Record world : Type := mkWorld {
  self : t;
  calls : list (dict pyobj)
}.

(** A method body: reads and writes the instance, may raise; the state at
    the raise is kept. *)
Definition M (A : Type) : Type := world -> result A * world.

Definition ret {A} (a : A) : M A := fun w => (Ok a, w).
Definition raise {A} (e : exn) : M A := fun w => (Raise e, w).
Definition lift {A} (r : result A) : M A := fun w => (r, w).
Definition bind {A B} (m : M A) (k : A -> M B) : M B :=
  fun w => match m w with
           | (Ok a, w') => k a w'
           | (Raise e, w') => (Raise e, w')
           end.

Declare Scope py_scope.
Delimit Scope py_scope with py.
Notation "x <- m ;; k" := (bind m (fun x => k))
  (at level 100, m at next level, right associativity) : py_scope.
Notation "m ;; k" := (bind m (fun _ => k))
  (at level 100, right associativity) : py_scope.
Open Scope py_scope.

Definition get_self : M t := fun w => (Ok (self w), w).
Definition get_param_map : M (dict string) := fun w => (Ok (param_map (self w)), w).
Definition get_checked : M bool := fun w => (Ok (_checked (self w)), w).

Definition set_param_map (pm : dict string) : M unit :=
  fun w => (Ok tt, mkWorld (mk pm (_checked (self w)) (get_loss (self w))) (calls w)).

Definition set_checked (b : bool) : M unit :=
  fun w => (Ok tt, mkWorld (mk (param_map (self w)) b (get_loss (self w))) (calls w)).

(** The call of [self.get_loss] with keyword arguments: it is logged, then
    made. *)
Definition call_get_loss (kwargs : dict pyobj) : M pyobj :=
  fun w => (py_call (get_loss (self w)) kwargs,
            mkWorld (self w) (calls w ++ [kwargs])).

Fixpoint for_each {A} (l : list A) (body : A -> M unit) : M unit :=
  match l with
  | [] => ret tt
  | x :: l' => body x ;; for_each l' body
  end.

(** [if keys not in param_map: param_map.update({keys: keys})], on the
    dictionary [self.param_map] itself *)
Definition add_identity (keys : string) : M unit :=
  pm <- get_param_map ;;
  if mem keys pm then ret tt else set_param_map (set keys keys pm).

(** the loop of lines 68-70; [param_map[keys]] raises KeyError on an
    absent key *)
Fixpoint collect_missing (pm : dict string) (param_val_dict : dict pyobj)
    (args : list string) (missing : list string) : M (list string) :=
  match args with
  | [] => ret missing
  | keys :: rest =>
      match get keys pm with
      | None => raise (KeyError keys)
      | Some name =>
          collect_missing pm param_val_dict rest
            (if mem name param_val_dict then missing else missing ++ [keys])
      end
  end.

Definition __call__ (output_dict target_dict : dict pyobj) (force_check : bool)
  : M pyobj :=
  me <- get_self ;;
  let '(args, defaults, defaults_val, varargs, kwargs) :=
    _get_arg_list (get_loss me) in
  match varargs with
  | Some _ =>
      raise (RuntimeError ("The function " ++ get_func_signature (get_loss me)
                           ++ " should not use Positional Argument."))
  | None =>
  match args with
  | None =>
      raise (RuntimeError ("There is not any param in function"
                           ++ get_func_signature (get_loss me)))
  | Some args =>
  set_checked (_checked me && negb force_check) ;;
  checked <- get_checked ;;
  (if negb checked then
     for_each args add_identity ;;
     match defaults with
     | Some defaults => for_each defaults add_identity
     | None => ret tt
     end
   else ret tt) ;;
  param_map <- get_param_map ;;
  let reversed_param_map :=
    of_items (map (fun kv => (snd kv, fst kv)) (items param_map)) in
  let duplicated :=
    if negb checked
    then filter (fun keys => mem keys target_dict) (keys output_dict)
    else [] in
  let param_val_dict := update (update [] (items output_dict)) (items target_dict) in
  missing <- (if negb checked
              then collect_missing param_map param_val_dict args []
              else ret []) ;;
  if (0 <? List.length duplicated)%nat || (0 <? List.length missing)%nat then
    check_res <- lift (new_CheckRes [("missing", missing); ("unused", []);
                                     ("duplicated", duplicated);
                                     ("required", []); ("all_needed", [])]) ;;
    raise (CheckError check_res (get_func_signature (get_loss me)))
  else
    set_checked true ;;
    kw <- lift (unpack "_map_args" _map_args_first param_val_dict) ;;
    let param_map_val := _map_args reversed_param_map kw in
    kw <- lift (unpack "_build_args" _build_args_first param_map_val) ;;
    let param_value := _build_args (get_loss me) kw in
    loss <- call_get_loss param_value ;;
    if negb (is_scalar_tensor loss) then
      if negb (is_tensor loss) then
        raise (RuntimeError ("loss ERROR: loss except a torch.Tensor but get "
                             ++ type_repr loss))
      else
        raise (RuntimeError "loss ERROR: the size of loss except torch.Size([]) but got loss.size")
    else ret loss
  end end.

End LossBase.

(** What [__call__] computes on the way, as functions of its inputs; the
    properties below relate the method to them. *)
Module Resolution.
Import LossBase.

(** the map after the loops of lines 42-48 over [names] *)
Definition extend (pm : dict string) (names : list string) : dict string :=
  fold_left (fun pm k => if mem k pm then pm else set k k pm) names pm.

Definition extended_param_map (me : t) : dict string :=
  extend (extend (param_map me) (fn_args (get_loss me)))
         (map fst (fn_defaults (get_loss me))).

(** the name a parameter maps to: its entry in the map, itself without one *)
Definition resolve (pm : dict string) (p : string) : string :=
  match get p pm with Some name => name | None => p end.

(** [param_val_dict]: the entries of [output_dict], then those of
    [target_dict] written over them *)
Definition merged (output_dict target_dict : dict pyobj) : dict pyobj :=
  update (update [] (items output_dict)) (items target_dict).

Definition duplicated_keys (output_dict target_dict : dict pyobj) : list string :=
  filter (fun k => mem k target_dict) (keys output_dict).

Definition missing_params (me : t) (output_dict target_dict : dict pyobj)
  : list string :=
  filter (fun p => negb (mem (resolve (param_map me) p)
                             (merged output_dict target_dict)))
         (fn_args (get_loss me)).

Definition reversed (pm : dict string) : dict string :=
  of_items (map (fun kv => (snd kv, fst kv)) (items pm)).

(** the keyword arguments [get_loss] is called with, lines 80-81 *)
Definition resolved_arguments (pm : dict string) (f : pyfunc)
    (output_dict target_dict : dict pyobj) : dict pyobj :=
  _build_args f (_map_args (reversed pm) (merged output_dict target_dict)).

(** lines 80-81: the keyword arguments for [get_loss], or the TypeError of
    the call of a helper whose first parameter has the name of a key *)
Definition resolution (pm : dict string) (f : pyfunc)
    (output_dict target_dict : dict pyobj) : result (dict pyobj) :=
  match unpack "_map_args" _map_args_first (merged output_dict target_dict) with
  | Raise e => Raise e
  | Ok kw =>
      match unpack "_build_args" _build_args_first (_map_args (reversed pm) kw) with
      | Raise e => Raise e
      | Ok kw' => Ok (_build_args f kw')
      end
  end.

(** lines 85-90 applied to the outcome of the call of [get_loss] *)
Definition checked_loss (r : result pyobj) : result pyobj :=
  match r with
  | Raise e => Raise e
  | Ok loss =>
      if is_scalar_tensor loss then Ok loss
      else if is_tensor loss
           then Raise (RuntimeError "loss ERROR: the size of loss except torch.Size([]) but got loss.size")
           else Raise (RuntimeError ("loss ERROR: loss except a torch.Tensor but get "
                                     ++ type_repr loss))
  end.

Definition with_fields (w : world) (pm : dict string) (checked : bool)
    (log : list (dict pyobj)) : world :=
  mkWorld (mk pm checked (get_loss (self w))) log.

(** lines 78-90: what a call does once the detection is behind it, with
    the map [pm] *)
Definition resolved_call (w : world) (pm : dict string)
    (output_dict target_dict : dict pyobj) : result pyobj * world :=
  match resolution pm (get_loss (self w)) output_dict target_dict with
  | Ok pv => (checked_loss (py_call (get_loss (self w)) pv),
              with_fields w pm true (calls w ++ [pv]))
  | Raise e => (Raise e, with_fields w pm true (calls w))
  end.





(** a sequence of calls on one instance, each with its [force_check] *)
Fixpoint run_calls (l : list (dict pyobj * dict pyobj * bool)) (w : world)
  : list (result pyobj) * world :=
  match l with
  | [] => ([], w)
  | (od, td, fc) :: l' =>
      let '(r, w1) := __call__ od td fc w in
      let '(rs, w2) := run_calls l' w1 in
      (r :: rs, w2)
  end.

End Resolution.

(** ** class NewLoss(LossBase) *)

Module NewLoss.

(** the [key_map] argument: absent, a dictionary, or some other value *)
Inductive key_map_arg : Type :=
| KeyMapNone
| KeyMapDict (d : dict string)
| KeyMapOther (v : pyobj).

Definition key_map_type_repr (a : key_map_arg) : string :=
  match a with
  | KeyMapNone => "<class 'NoneType'>"
  | KeyMapDict _ => "<class 'dict'>"
  | KeyMapOther v => type_repr v
  end.

(** [__init__(self, func, key_map=None, **kwargs)]; [func] is a function,
    so [_check_function_or_method] lets it pass. *)
Definition __init__ (func : pyfunc) (key_map : key_map_arg) (kwargs : dict string)
  : result LossBase.t :=
  let param_map0 : dict string := [] in
  let checked0 := false in
  match (match key_map with
         | KeyMapNone => Ok param_map0
         | KeyMapDict d => Ok d
         | KeyMapOther _ =>
             Raise (RuntimeError ("Loss error: key_map except a <class 'dict'> but got a "
                                  ++ key_map_type_repr key_map))
         end) with
  | Raise e => Raise e
  | Ok pm =>
      let pm := if (0 <? List.length kwargs)%nat
                then fold_left (fun pm kv => set (fst kv) (snd kv) pm) (items kwargs) pm
                else pm in
      Ok (LossBase.mk pm checked0 func)
  end.

End NewLoss.

(** ** class LossInForward(LossBase) *)

Module LossInForward.

Record t : Type := mk { loss_key : string }.

(** Modelled from the spec: the printed signature of the method, which
    [get_func_signature] of fastNLP.core.utils would give. *)
Definition signature : string := "LossInForward.get_loss(self, **kwargs)".

(** [get_loss(self, **kwargs)]: no [return] on the path where the key is
    present, so the result there is [None]. *)
Definition get_loss (me : t) (kwargs : dict pyobj) : result pyobj :=
  if negb (mem (loss_key me) kwargs) then
    match new_CheckRes [("missing", [loss_key me]); ("unused", []);
                        ("duplicated", []); ("required", []);
                        ("all_needed", []); ("varargs", [])] with
    | Raise e => Raise e
    | Ok check_res => Raise (CheckError check_res signature)
    end
  else Ok PyNone.

(** [__call__(self, output_dict, predict_dict, force_check=False)].  The
    keywords of [output_dict] go to the bound method: a key named like its
    first parameter is refused by the call itself. *)
Definition __call__ (me : t) (output_dict predict_dict : dict pyobj)
    (force_check : bool) : result pyobj :=
  if mem "self" output_dict then
    Raise (TypeError "get_loss() got multiple values for argument 'self'")
  else
    match get_loss me output_dict with
    | Raise e => Raise e
    | Ok loss =>
        if negb (is_scalar_tensor loss) then
          if negb (is_tensor loss) then
            Raise (TypeError ("loss ERROR: loss except a torch.Tensor but got "
                              ++ type_repr loss))
          else
            Raise (RuntimeError "loss ERROR: the size of loss except torch.Size([]) but got loss.size")
        else Ok loss
    end.

End LossInForward.

(** ** Python strings

    A character is a code point below 256. *)

Module PyString.

Definition code (c : ascii) : nat := nat_of_ascii c.

(** the characters [str.strip()] removes *)
Definition is_space (c : ascii) : bool :=
  let n := code c in
  (((9 <=? n) && (n <=? 13)) || ((28 <=? n) && (n <=? 32))
   || (n =? 133) || (n =? 160))%nat.

Definition lower_char (c : ascii) : ascii :=
  let n := code c in
  if (((65 <=? n) && (n <=? 90))
      || ((192 <=? n) && (n <=? 222) && negb (n =? 215)))%nat
  then ascii_of_nat (n + 32) else c.

Fixpoint lstrip_chars (l : list ascii) : list ascii :=
  match l with
  | c :: l' => if is_space c then lstrip_chars l' else l
  | [] => []
  end.

Definition strip_chars (l : list ascii) : list ascii :=
  rev (lstrip_chars (rev (lstrip_chars l))).

(** [s.split(sep)] for a one-character separator *)
Fixpoint split_chars (sep : ascii) (l : list ascii) : list (list ascii) :=
  match l with
  | [] => [[]]
  | c :: l' =>
      if Ascii.eqb c sep then [] :: split_chars sep l'
      else match split_chars sep l' with
           | piece :: pieces => (c :: piece) :: pieces
           | [] => [[c]]
           end
  end.

(** [s.strip()], [s.lower()], [s.split(sep)], the join of [pieces] with
    the empty separator, [len(s)] and [s[-n:]] *)
Definition strip (s : string) : string :=
  string_of_list_ascii (strip_chars (list_ascii_of_string s)).
Definition lower (s : string) : string :=
  string_of_list_ascii (map lower_char (list_ascii_of_string s)).
Definition split (sep : ascii) (s : string) : list string :=
  map string_of_list_ascii (split_chars sep (list_ascii_of_string s)).
Definition join_empty (pieces : list string) : string :=
  fold_right String.append EmptyString pieces.
Definition len (s : string) : nat := String.length s.
Definition last_chars (n : nat) (s : string) : string :=
  string_of_list_ascii
    (skipn (List.length (list_ascii_of_string s) - n) (list_ascii_of_string s)).

End PyString.

(** ** The torch side

    The loss classes of torch.nn that the table names, and what the module
    needs of torch: building an instance of a class from keyword arguments
    and calling the instance on a pair of tensors.  The four pre-processing
    functions of losses.py are tensor code (view, pack_padded_sequence,
    masked_select); they are taken as given functions. *)

Inductive torch_nn : Type :=
| L1Loss | BCELoss | MSELoss | NLLLoss | KLDivLoss | NLLLoss2d
| SmoothL1Loss | SoftMarginLoss | PoissonNLLLoss | MultiMarginLoss
| CrossEntropyLoss | BCEWithLogitsLoss | MarginRankingLoss
| TripletMarginLoss | HingeEmbeddingLoss | CosineEmbeddingLoss
| MultiLabelMarginLoss | MultiLabelSoftMarginLoss.

(** a function [f(predict, truth, **kwargs)] that returns a pair *)
Definition prefn : Type := pyobj -> pyobj -> dict pyobj -> result (pyobj * pyobj).

Class Torch : Type := {
  nn_module : Type;
  construct : torch_nn -> dict pyobj -> result nn_module;
  forward : nn_module -> pyobj -> pyobj -> result pyobj;
  squash : prefn;
  unpad : prefn;
  unpad_mask : prefn;
  mask : prefn
}.

(** ** class Loss *)

Module Loss.

Section WithTorch.
Context {torch : Torch}.

Definition method_dict : dict prefn :=
  of_items [ ("squash", squash); ("unpad", unpad);
             ("unpad_mask", unpad_mask); ("mask", mask) ].

Definition loss_function_name : dict torch_nn :=
  of_items
    [ (PyString.lower "L1Loss", L1Loss);
      (PyString.lower "BCELoss", BCELoss);
      (PyString.lower "MSELoss", MSELoss);
      (PyString.lower "NLLLoss", NLLLoss);
      (PyString.lower "KLDivLoss", KLDivLoss);
      (PyString.lower "NLLLoss2dLoss", NLLLoss2d);
      (PyString.lower "SmoothL1Loss", SmoothL1Loss);
      (PyString.lower "SoftMarginLoss", SoftMarginLoss);
      (PyString.lower "PoissonNLLLoss", PoissonNLLLoss);
      (PyString.lower "MultiMarginLoss", MultiMarginLoss);
      (PyString.lower "CrossEntropyLoss", CrossEntropyLoss);
      (PyString.lower "BCEWithLogitsLoss", BCEWithLogitsLoss);
      (PyString.lower "MarginRankingLoss", MarginRankingLoss);
      (PyString.lower "TripletMarginLoss", TripletMarginLoss);
      (PyString.lower "HingeEmbeddingLoss", HingeEmbeddingLoss);
      (PyString.lower "CosineEmbeddingLoss", CosineEmbeddingLoss);
      (PyString.lower "MultiLabelMarginLoss", MultiLabelMarginLoss);
      (PyString.lower "MultiLabelSoftMarginLoss", MultiLabelSoftMarginLoss) ].

(** An argument that stands for a pre-processing function: a callable, or
    any other value. *)
Inductive pre_arg : Type :=
| Callable (f : prefn)
| Value (v : pyobj).

(** a list cannot be hashed; the other values can *)
Definition hashable (v : pyobj) : bool :=
  match v with PyList _ => false | _ => true end.

(** [method_dict.get(v)]: the key is hashed first; only a string can be
    equal to a key of the table. *)
Definition method_dict_get (v : pyobj) : result (option prefn) :=
  if hashable v then
    match v with
    | PyStr s => Ok (get s method_dict)
    | _ => Ok None
    end
  else Raise (TypeError ("unhashable type: " ++ type_repr v)).

(** The fields of an instance; an entry of [pre_pro] is a function or
    [None]. *)
Record t : Type := mk {
  _loss : option nn_module;
  pre_pro : list (option prefn)
}.

(** [_get_loss(loss_name, **kwargs)] *)
Definition _get_loss (loss_name : string) (kwargs : dict pyobj)
  : result nn_module :=
  let loss_name := PyString.lower (PyString.strip loss_name) in
  let loss_name := PyString.join_empty (PyString.split "_" loss_name) in
  let loss_name :=
    if (PyString.len loss_name <? 4)%nat
       || negb (String.eqb (PyString.last_chars 4 loss_name) "loss")
    then (loss_name ++ "loss")%string
    else loss_name in
  match get loss_name loss_function_name with
  | None => Raise (KeyError loss_name)
  | Some cls => construct cls kwargs
  end.

(** the list comprehension of line 316, left to right *)
Fixpoint translate (pre_pro : list pre_arg) : result (list (option prefn)) :=
  match pre_pro with
  | [] => Ok []
  | f :: rest =>
      match (match f with
             | Callable g => Ok (Some g)
             | Value v => method_dict_get v
             end) with
      | Raise e => Raise e
      | Ok entry =>
          match translate rest with
          | Raise e => Raise e
          | Ok entries => Ok (entry :: entries)
          end
      end
  end.

(** [__init__(self, loss_name, pre_pro=[squash], **kwargs)]; [loss_name]
    is [None], a string, or another value. *)
Definition __init__ (loss_name : option pyobj) (pre_pro : list pre_arg)
    (kwargs : dict pyobj) : result t :=
  match (match loss_name with
         | None => Ok None
         | Some (PyStr name) =>
             match _get_loss name kwargs with
             | Ok m => Ok (Some m)
             | Raise e => Raise e
             end
         | Some _ => Raise NotImplementedError
         end) with
  | Raise e => Raise e
  | Ok l =>
      match translate pre_pro with
      | Raise e => Raise e
      | Ok entries => Ok (mk l entries)
      end
  end.

(** [add_pre_pro(self, func)]: the outcome and the instance after it *)
Definition add_pre_pro (func : pre_arg) (me : t) : result unit * t :=
  match func with
  | Callable f => (Ok tt, mk (_loss me) (pre_pro me ++ [Some f]))
  | Value v =>
      match method_dict_get v with
      | Raise e => (Raise e, me)
      | Ok None => (Ok tt, me)
      | Ok (Some f) => (Ok tt, mk (_loss me) (pre_pro me ++ [Some f]))
      end
  end.

(** What a call does, in order: each pre-processing function applied (to
    which pair), then the loss function (on which pair). *)
Inductive event : Type :=
| PreProCall (predict truth : pyobj)
| LossCall (predict truth : pyobj).

(** the loop of lines 359-362 *)
Fixpoint run_pre_pro (fs : list (option prefn)) (predict truth : pyobj)
    (kwargs : dict pyobj) (log : list event)
  : result (pyobj * pyobj) * list event :=
  match fs with
  | [] => (Ok (predict, truth), log)
  | None :: rest => run_pre_pro rest predict truth kwargs log
  | Some f :: rest =>
      match f predict truth kwargs with
      | Ok (predict', truth') =>
          run_pre_pro rest predict' truth' kwargs
                      (log ++ [PreProCall predict truth])
      | Raise e => (Raise e, log ++ [PreProCall predict truth])
      end
  end.

(** [__call__(self, predict, truth, **kwargs)], with the events it causes;
    calling [None] is a TypeError. *)
Definition __call__ (me : t) (predict truth : pyobj) (kwargs : dict pyobj)
  : result pyobj * list event :=
  match run_pre_pro (pre_pro me) predict truth kwargs [] with
  | (Raise e, log) => (Raise e, log)
  | (Ok (predict, truth), log) =>
      match _loss me with
      | None => (Raise (TypeError "'NoneType' object is not callable"), log)
      | Some loss => (forward loss predict truth, log ++ [LossCall predict truth])
      end
  end.

(** *** The pipeline in the words of its description *)

(** the entries that are not [None], in order *)
Definition functions_of (fs : list (option prefn)) : list prefn :=
  flat_map (fun o => match o with Some f => [f] | None => [] end) fs.

(** the pairs met when the functions are applied one after another, each
    to the pair the one before returned: the pairs the functions were
    applied to, and the last pair or the exception that ended the chain *)
Fixpoint chain (fs : list prefn) (kwargs : dict pyobj) (pair : pyobj * pyobj)
  : list (pyobj * pyobj) * result (pyobj * pyobj) :=
  match fs with
  | [] => ([], Ok pair)
  | f :: rest =>
      match f (fst pair) (snd pair) kwargs with
      | Ok next =>
          let '(seen, last) := chain rest kwargs next in
          (pair :: seen, last)
      | Raise e => ([pair], Raise e)
      end
  end.

Definition pipeline (me : t) (predict truth : pyobj) (kwargs : dict pyobj)
  : result pyobj * list event :=
  let '(seen, last) := chain (functions_of (pre_pro me)) kwargs (predict, truth) in
  let pre_events := map (fun p => PreProCall (fst p) (snd p)) seen in
  match last with
  | Raise e => (Raise e, pre_events)
  | Ok (p, t) =>
      match _loss me with
      | None => (Raise (TypeError "'NoneType' object is not callable"), pre_events)
      | Some loss => (forward loss p t, pre_events ++ [LossCall p t])
      end
  end.

(** *** The name normalisation in the words of its description *)

Definition delete_underscores (s : string) : string :=
  string_of_list_ascii
    (filter (fun c => negb (Ascii.eqb c "_")) (list_ascii_of_string s)).

Definition ends_in_loss (s : string) : Prop :=
  exists prefix : string, s = (prefix ++ "loss")%string.

Definition normalised (loss_name : string) : string :=
  delete_underscores (PyString.lower (PyString.strip loss_name)).

End WithTorch.

End Loss.

(** ** Concrete loss functions, instances and batches *)

Module Examples.
Import LossBase.

Definition scalar : pyobj := Tensor [] [3%Z].
Definition vector : pyobj := Tensor [2] [3%Z; 4%Z].

(** a body that returns what its parameter [name] is bound to *)
Definition returns (name : string) (env : dict pyobj) : result pyobj :=
  match get name env with
  | Some v => Ok v
  | None => Raise (KeyError name)
  end.

(** [def loss(pred, target)] *)
Definition loss_pred_target : pyfunc :=
  mkFunc ["pred"; "target"] [] None None "loss(pred, target)" (returns "pred").


(** [def loss(pred, weight=None)] *)
Definition loss_weighted : pyfunc :=
  mkFunc ["pred"] [("weight", PyNone)] None None "loss(pred, weight=None)"
         (returns "pred").

(** [def loss(pred, *args)] *)
Definition loss_varargs : pyfunc :=
  mkFunc ["pred"] [] (Some "args") None "loss(pred, *args)" (returns "pred").

(** a fresh instance around [func] with the map [pm], nothing called yet *)
Definition fresh (pm : dict string) (func : pyfunc) : world :=
  mkWorld (mk pm false func) [].


(** [NewLoss(loss, pred='output')] *)
Definition renamed_pred : world := fresh [("pred", "output")] loss_pred_target.

Definition plain : world := fresh [] loss_pred_target.
Definition weighted : world := fresh [] loss_weighted.
Definition with_varargs : world := fresh [] loss_varargs.

Definition batch_output : dict pyobj := [("output", scalar)].
Definition batch_pred : dict pyobj := [("pred", scalar)].
Definition batch_pred_vector : dict pyobj := [("pred", vector)].
Definition batch_target : dict pyobj := [("target", vector)].
Definition batch_pred_target : dict pyobj := [("pred", scalar); ("target", scalar)].
Definition batch_extra : dict pyobj := [("pred", scalar); ("seq_len", vector)].
Definition batch_extra_target : dict pyobj := [("target", vector); ("seq_len", scalar)].

(** a batch with a key named like the first parameter of [_map_args] *)
Definition batch_maps : dict pyobj := [("pred", scalar); ("maps", vector)].
Definition batch_x : dict pyobj := [("x", scalar)].

(** [NewLoss(loss, pred='x', zzz='x')]: the second entry names no parameter *)
Definition unused_entry : world :=
  fresh [("pred", "x"); ("zzz", "x")] loss_pred_target.


(** A stand-in for torch: an instance of a loss class is the class with the
    keyword arguments it was built from, calling it gives a scalar, and the
    pre-processing functions are told apart by what they do to the pair. *)
Definition toy_torch : Torch :=
  {| nn_module := torch_nn * dict pyobj;
     construct := fun cls kwargs => Ok (cls, kwargs);
     forward := fun _ predict _ =>
                  match predict with
                  | PyStr s => Ok (PyStr s)
                  | _ => Ok scalar
                  end;
     squash := fun predict truth _ => Ok (PyList [1%Z], truth);
     unpad := fun predict truth _ => Ok (PyList [2%Z], truth);
     unpad_mask := fun predict truth _ => Ok (PyList [3%Z], truth);
     mask := fun predict truth _ => Ok (PyList [4%Z], truth) |}.

(** a pre-processing function that writes down its input *)
Definition tag (name : string) : prefn :=
  fun predict truth _ =>
    match predict with
    | PyStr s => Ok (PyStr (s ++ name), truth)
    | _ => Ok (PyStr name, truth)
    end.

Definition l1 : @Loss.t toy_torch :=
  @Loss.mk toy_torch (Some (L1Loss, [])) [Some (tag "a"); None; Some (tag "b")].

End Examples.

(** ** Proof automation *)

(** case analysis on the equality of two keys *)
Ltac eqb_case a b :=
  let E := fresh "E" in
  destruct (String.eqb_spec a b) as [E | E]; [try subst | idtac].


(** ** The constructors and [_prepare_losser] *)

Module LossBaseClass.

(** [LossBase.get_loss(self, *args, **kwargs)] as the instance holds it: it
    declares [*args] and [**kwargs], and its body raises. *)
Definition get_loss : pyfunc :=
  mkFunc ["self"] [] (Some "args") (Some "kwargs")
         "get_loss(self, *args, **kwargs)"
         (fun _ => Raise NotImplementedError).

(** [LossBase.__init__(self)] *)
Definition __init__ : LossBase.t := LossBase.mk [] false get_loss.

End LossBaseClass.

Module LossInForwardClass.

(** [LossInForward.__init__(self, loss_key='loss')]; no argument is the
    default. *)
Definition __init__ (loss_key : option pyobj) : result LossInForward.t :=
  match loss_key with
  | None => Ok (LossInForward.mk "loss")
  | Some (PyStr s) => Ok (LossInForward.mk s)
  | Some v =>
      Raise (TypeError ("Only str allowed for loss_key, got " ++ type_repr v ++ "."))
  end.

End LossInForwardClass.

Module Prepare.

(** an instance of [LossBase] or of one of its subclasses *)
Inductive loss_instance : Type :=
| ALossBase (me : LossBase.t)
| ALossInForward (me : LossInForward.t).

(** the argument of [_prepare_losser]: [None], an instance of [LossBase],
    or anything else *)
Inductive losser_arg : Type :=
| LosserNone
| LosserInstance (l : loss_instance)
| LosserOther (v : pyobj).

Definition losser_type_repr (a : losser_arg) : string :=
  match a with
  | LosserNone => "<class 'NoneType'>"
  | LosserInstance (ALossBase _) => "<class 'fastNLP.core.losses.LossBase'>"
  | LosserInstance (ALossInForward _) => "<class 'fastNLP.core.losses.LossInForward'>"
  | LosserOther v => type_repr v
  end.

Definition _prepare_losser (losser : losser_arg) : result loss_instance :=
  match losser with
  | LosserNone =>
      match LossInForwardClass.__init__ None with
      | Ok l => Ok (ALossInForward l)
      | Raise e => Raise e
      end
  | LosserInstance l => Ok l
  | LosserOther _ =>
      Raise (TypeError ("Type of losser should be `fastNLP.LossBase`, got "
                        ++ losser_type_repr losser))
  end.

(** [losser(output_dict, target_dict)] on a prepared losser, with the log
    of the calls of [get_loss] of a [LossBase] instance *)
Definition call_losser (l : loss_instance) (output_dict target_dict : dict pyobj)
    (log : list (dict pyobj)) : result pyobj :=
  match l with
  | ALossBase me =>
      fst (LossBase.__call__ output_dict target_dict false (LossBase.mkWorld me log))
  | ALossInForward me => LossInForward.__call__ me output_dict target_dict false
  end.

End Prepare.

Module LossClient.
Import Loss.

(** [add_pre_pro] called with each element of a list in turn, ignoring what
    the calls return *)
Definition add_all {torch : Torch} (l : list pre_arg) (me : t) : t :=
  fold_left (fun me a => snd (add_pre_pro a me)) l me.

End LossClient.

Module MoreExamples.
Import LossBase Examples.

(** [def loss(pred, target): raise KeyError('boom')] *)
Definition loss_failing : pyfunc :=
  mkFunc ["pred"; "target"] [] None None "loss(pred, target)"
         (fun _ => Raise (KeyError "boom")).

Definition failing : world := fresh [] loss_failing.

End MoreExamples.

(** ** Tensors as the pre-processing functions use them

    [squash], [mask], [unpad_mask] and [make_mask] only move elements
    around: they read sizes, reshape, transpose, select by a mask and
    stack.  A tensor is its size and its elements in row-major order; the
    element type is left open.  The tensors are contiguous, as a batch
    hands them over ([view] of a tensor that is not raises in torch). *)

Module Tensors.

Record tensor (A : Type) : Type := mkTensor {
  size : list nat;
  elems : list A
}.

(** the number of elements a size stands for *)
Definition numel (shape : list nat) : nat := fold_right Nat.mul 1 shape.

Definition well_formed {A} (t : tensor A) : Prop :=
  List.length (elems t) = numel (size t).

(** the exceptions of LossBase and, beside them, IndexError and
    ValueError *)
Inductive py_error : Type :=
| Std (e : exn)
| IndexError (msg : string)
| ValueError (msg : string).

Inductive outcome (A : Type) : Type :=
| Returns (a : A)
| Raises (e : py_error).
Arguments Returns {A} a.
Arguments Raises {A} e.

(** *** Lists of rows *)

(** [n] consecutive pieces of [k] elements *)
Fixpoint chunks {A} (k n : nat) (l : list A) : list (list A) :=
  match n with
  | 0 => []
  | S n' => firstn k l :: chunks k n' (skipn k l)
  end.

(** the first element of every row that has one *)
Definition heads {A} (rows : list (list A)) : list A :=
  flat_map (fun r => match r with [] => [] | x :: _ => [x] end) rows.

(** the first [n] columns of a list of rows *)
Fixpoint columns {A} (n : nat) (rows : list (list A)) : list (list A) :=
  match n with
  | 0 => []
  | S n' => heads rows :: columns n' (map (@tl A) rows)
  end.

(** the elements of an [r] by [c] matrix, read column by column *)
Definition transpose {A} (r c : nat) (data : list A) : list A :=
  List.concat (columns c (chunks c r data)).

(** the elements at the places where the mask is set; a mask is a byte
    tensor of zeros and ones, a list of booleans here *)
Fixpoint select {A} (m : list bool) (l : list A) : list A :=
  match m, l with
  | b :: m', x :: l' => if b then x :: select m' l' else select m' l'
  | _, _ => []
  end.

(** *** The operations of torch that the functions call *)

(** [t.size()[-1]] *)
Definition size_last {A} (t : tensor A) : outcome nat :=
  match rev (size t) with
  | [] => Raises (IndexError "tuple index out of range")
  | d :: _ => Returns d
  end.

(** [t.size()[1]] *)
Definition size_at_1 {A} (t : tensor A) : outcome nat :=
  match nth_error (size t) 1 with
  | None => Raises (IndexError "tuple index out of range")
  | Some d => Returns d
  end.

(** the dimension that [-1] stands for in a [view] whose other dimensions
    multiply to [known] *)
Definition infer_dim {A} (t : tensor A) (known : nat) : outcome nat :=
  if (known =? 0)%nat then
    Raises (Std (RuntimeError "shape is invalid for input or the unspecified dimension is ambiguous"))
  else if (numel (size t) mod known =? 0)%nat then
    Returns (numel (size t) / known)
  else Raises (Std (RuntimeError "shape is invalid for input")).

(** [t.view(-1, cols)] *)
Definition view_rows {A} (t : tensor A) (cols : nat) : outcome (tensor A) :=
  match infer_dim t cols with
  | Raises e => Raises e
  | Returns rows => Returns (mkTensor [rows; cols] (elems t))
  end.

(** [t.view(rows, -1)] *)
Definition view_cols {A} (t : tensor A) (rows : nat) : outcome (tensor A) :=
  match infer_dim t rows with
  | Raises e => Raises e
  | Returns cols => Returns (mkTensor [rows; cols] (elems t))
  end.

(** [t.view(-1, )] *)
Definition view_flat {A} (t : tensor A) : tensor A :=
  mkTensor [numel (size t)] (elems t).

(** [t.permute(1, 0)] *)
Definition permute_1_0 {A} (t : tensor A) : outcome (tensor A) :=
  match size t with
  | [r; c] => Returns (mkTensor [c; r] (transpose r c (elems t)))
  | _ => Raises (Std (RuntimeError "number of dims don't match in permute"))
  end.

(** broadcasting: two sizes are aligned at their last dimension, and two
    dimensions go together when they are equal or one of them is 1 *)
Definition broadcast_dim (a b : nat) : option nat :=
  if (a =? b)%nat then Some a
  else if (a =? 1)%nat then Some b
  else if (b =? 1)%nat then Some a
  else None.

Definition pad_shape (n : nat) (s : list nat) : list nat :=
  repeat 1 (n - List.length s) ++ s.

Fixpoint broadcast_shapes (s1 s2 : list nat) : option (list nat) :=
  match s1, s2 with
  | [], [] => Some []
  | a :: s1', b :: s2' =>
      match broadcast_dim a b, broadcast_shapes s1' s2' with
      | Some d, Some ds => Some (d :: ds)
      | _, _ => None
      end
  | _, _ => None
  end.

(** the elements of a tensor of size [shape] seen at the size [target]: a
    dimension of 1 is repeated *)
Fixpoint expand {A} (shape target : list nat) (data : list A) : list A :=
  match shape, target with
  | d :: ds, e :: es =>
      let parts := map (expand ds es) (chunks (numel ds) d data) in
      if (d =? e)%nat then List.concat parts
      else List.concat (repeat (List.concat parts) e)
  | _, _ => data
  end.

(** [torch.masked_select(t, m)]: a tensor of one dimension *)
Definition masked_select {A} (t : tensor A) (m : tensor bool) : outcome (tensor A) :=
  let n := Nat.max (List.length (size t)) (List.length (size m)) in
  let s1 := pad_shape n (size t) in
  let s2 := pad_shape n (size m) in
  match broadcast_shapes s1 s2 with
  | None =>
      Raises (Std (RuntimeError "The size of tensor a must match the size of tensor b"))
  | Some target =>
      let data := select (expand s2 target (elems m)) (expand s1 target (elems t)) in
      Returns (mkTensor [List.length data] data)
  end.

(** [torch.LongTensor(lens)] for a list of integers: a tensor of one
    dimension, given here as the list of its elements; an integer that does
    not fit 64 bits is refused with ValueError *)
Definition int64 (z : Z) : bool :=
  ((- 2 ^ 63 <=? z) && (z <? 2 ^ 63))%Z.

Definition LongTensor (lens : list Z) : outcome (list Z) :=
  if forallb int64 lens then Returns lens
  else Raises (ValueError "Overflow when unpacking long").

(** [torch.ge(lens, k)] on a tensor of one dimension: set where the element
    is at least [k] *)
Definition ge (lens : list Z) (k : Z) : list bool :=
  map (fun l => (k <=? l)%Z) lens.

(** [range(n)] *)
Definition range (n : Z) : list Z :=
  map Z.of_nat (seq 0 (Z.to_nat n)).

(** [torch.stack(ts, 1)] on tensors of one dimension *)
Definition stack_1 {A} (ts : list (list A)) : outcome (tensor A) :=
  match ts with
  | [] => Raises (Std (RuntimeError "stack expects a non-empty TensorList"))
  | t0 :: _ =>
      if forallb (fun t => (List.length t =? List.length t0)%nat) ts then
        Returns (mkTensor [List.length t0; List.length ts]
                          (List.concat (columns (List.length t0) ts)))
      else
        Raises (Std (RuntimeError "stack expects each tensor to be equal size"))
  end.

End Tensors.

(** ** squash, mask, unpad_mask and make_mask *)

Module PreProcess.
Import Tensors.

(** the keyword arguments that the functions read: [lens] and [mask], each
    absent (or [None]) or given *)
Record kwargs : Type := mkKwargs {
  kw_lens : option (list Z);
  kw_mask : option (tensor bool)
}.

Section Functions.
Variables A B : Type.

(** [squash(predict, truth, **kwargs)] *)
Definition squash (predict : tensor A) (truth : tensor B) (kw : kwargs)
  : outcome (tensor A * tensor B) :=
  match size_last predict with
  | Raises e => Raises e
  | Returns last =>
      match view_rows predict last with
      | Raises e => Raises e
      | Returns predict' => Returns (predict', view_flat truth)
      end
  end.

(** [mask(predict, truth, **kwargs)] *)
Definition mask (predict : tensor A) (truth : tensor B) (kw : kwargs)
  : outcome (tensor A * tensor B) :=
  match kw_mask kw with
  | None => Returns (predict, truth)
  | Some mask =>
      match squash predict truth (mkKwargs None None) with
      | Raises e => Raises e
      | Returns (predict, truth) =>
          let mask := view_flat mask in
          match permute_1_0 predict with
          | Raises e => Raises e
          | Returns permuted =>
          match masked_select permuted mask with
          | Raises e => Raises e
          | Returns selected =>
          match size_last predict with
          | Raises e => Raises e
          | Returns last =>
          match view_cols selected last with
          | Raises e => Raises e
          | Returns viewed =>
          match permute_1_0 viewed with
          | Raises e => Raises e
          | Returns predict' =>
          match masked_select truth mask with
          | Raises e => Raises e
          | Returns truth' => Returns (predict', truth')
          end end end end end end
      end
  end.

(** [make_mask(lens, tar_len)] *)
Definition make_mask (lens : list Z) (tar_len : Z) : outcome (tensor bool) :=
  match LongTensor lens with
  | Raises e => Raises e
  | Returns lens =>
      let mask := map (fun i => ge lens (i + 1)%Z) (range tar_len) in
      stack_1 mask
  end.

(** [unpad_mask(predict, truth, **kwargs)] *)
Definition unpad_mask (predict : tensor A) (truth : tensor B) (kw : kwargs)
  : outcome (tensor A * tensor B) :=
  match kw_lens kw with
  | None => Returns (predict, truth)
  | Some lens =>
      match size_at_1 truth with
      | Raises e => Raises e
      | Returns tar_len =>
          match make_mask lens (Z.of_nat tar_len) with
          | Raises e => Raises e
          | Returns mas => mask predict truth (mkKwargs None (Some mas))
          end
      end
  end.

End Functions.

(** *** What the functions keep, in plain terms *)

(** how many positions of a sequence of length [l] lie within [max_len] *)
Definition kept (max_len : nat) (l : Z) : nat :=
  Z.to_nat (Z.min l (Z.of_nat max_len)).

(** of [items], cut into sequences of [max_len] positions, the first
    [kept] positions of every sequence *)
Fixpoint unpadded {X} (max_len : nat) (lens : list Z) (items : list X) : list X :=
  match lens with
  | [] => []
  | l :: lens' =>
      firstn (kept max_len l) (firstn max_len items)
      ++ unpadded max_len lens' (skipn max_len items)
  end.

End PreProcess.

Module TensorExamples.
Import Tensors PreProcess.

(** a batch of two sequences of three positions, two scores a position *)
Definition scores : tensor Z :=
  mkTensor [2; 3; 2] [1; 2; 3; 4; 5; 6; 7; 8; 9; 10; 11; 12]%Z.

Definition labels : tensor Z :=
  mkTensor [2; 3] [21; 22; 23; 24; 25; 26]%Z.

(** the positions 0, 1 and 3 of the six *)
Definition chosen : tensor bool :=
  mkTensor [2; 3] [true; true; false; true; false; false].

End TensorExamples.
(** * Properties *)

(** ** Dictionaries *)

Module DictFacts.

Section Facts.
Variable V : Type.
Implicit Types (d : dict V) (k : string) (v : V).

Lemma get_set_eq k v d : get k (set k v d) = Some v.
Proof.
  induction d as [| [k' v'] d IH]; simpl.
  - now rewrite String.eqb_refl.
  - eqb_case k k'; simpl.
    + now rewrite String.eqb_refl.
    + apply String.eqb_neq in E. now rewrite E.
Qed.

Lemma get_set_ne k k' v d : k <> k' -> get k' (set k v d) = get k' d.
Proof.
  intros Hne. induction d as [| [k0 v0] d IH]; simpl.
  - apply not_eq_sym in Hne. apply String.eqb_neq in Hne. now rewrite Hne.
  - eqb_case k k0; simpl.
    + eqb_case k' k0; [congruence | reflexivity].
    + now rewrite IH.
Qed.

Lemma get_set k k' v d :
  get k' (set k v d) = if String.eqb k' k then Some v else get k' d.
Proof.
  eqb_case k' k.
  - apply get_set_eq.
  - apply get_set_ne. congruence.
Qed.

Lemma mem_In k d : mem k d = true <-> In k (keys d).
Proof.
  unfold mem, keys. induction d as [| [k' v'] d IH]; simpl.
  - split; [discriminate | tauto].
  - eqb_case k k'.
    + split; auto.
    + rewrite IH. split; [auto | intros [H | H]; congruence].
Qed.

Lemma mem_false k d : mem k d = false <-> ~ In k (keys d).
Proof.
  rewrite <- mem_In. destruct (mem k d); split; congruence.
Qed.

Lemma get_None k d : get k d = None <-> ~ In k (keys d).
Proof.
  rewrite <- mem_false. unfold mem. destruct (get k d); split; congruence.
Qed.

Lemma get_Some_In k v d : get k d = Some v -> In (k, v) d.
Proof.
  induction d as [| [k' v'] d IH]; simpl; [discriminate |].
  eqb_case k k'.
  - intros [= ->]. now left.
  - intros H. right. now apply IH.
Qed.

Lemma In_get k v d : NoDup (keys d) -> In (k, v) d -> get k d = Some v.
Proof.
  unfold keys. induction d as [| [k' v'] d IH]; simpl; [tauto |].
  intros Hnd [H | H]; inversion Hnd as [| ? ? Hnot Hnd']; subst.
  - injection H as -> ->. now rewrite String.eqb_refl.
  - eqb_case k k'.
    + exfalso. apply Hnot. change k' with (fst (k', v)). now apply in_map.
    + now apply IH.
Qed.

Lemma keys_set k v d :
  keys (set k v d) = if mem k d then keys d else keys d ++ [k].
Proof.
  unfold mem, keys. induction d as [| [k' v'] d IH]; simpl; [reflexivity |].
  eqb_case k k'; simpl; [reflexivity |].
  rewrite IH. now destruct (get k d).
Qed.

Lemma NoDup_set k v d : NoDup (keys d) -> NoDup (keys (set k v d)).
Proof.
  intros Hnd. rewrite keys_set. destruct (mem k d) eqn:Hm; [assumption |].
  apply mem_false in Hm.
  apply NoDup_rev in Hnd. rewrite <- (rev_involutive (keys d ++ [k])).
  apply NoDup_rev. rewrite rev_app_distr. simpl. constructor; [| assumption].
  now rewrite <- in_rev.
Qed.

Lemma NoDup_update d e : NoDup (keys d) -> NoDup (keys (update d e)).
Proof.
  unfold update. revert d.
  induction e as [| [k v] e IH]; simpl; intros d Hnd; [assumption |].
  apply IH. now apply NoDup_set.
Qed.

(** A key read after [update] has the value of its last entry in the
    update, or else the old value. *)
Lemma get_update k d e :
  get k (update d e) =
  match get k (rev e) with Some v => Some v | None => get k d end.
Proof.
  unfold update. revert d.
  induction e as [| [k' v'] e IH]; simpl; intros d; [reflexivity |].
  rewrite IH. clear IH.
  assert (Happ : forall (l1 l2 : dict V),
             get k (l1 ++ l2) =
             match get k l1 with Some v => Some v | None => get k l2 end).
  { induction l1 as [| [a b] l1 IH1]; simpl; intros l2; [reflexivity |].
    destruct (String.eqb k a); [reflexivity | apply IH1]. }
  rewrite Happ. destruct (get k (rev e)); [reflexivity |].
  simpl. rewrite get_set. now destruct (String.eqb k k').
Qed.


(** In a dictionary (no key twice) the first and the last entry of a key
    are the same one. *)
Lemma get_rev k d : NoDup (keys d) -> get k (rev d) = get k d.
Proof.
  intros Hnd. destruct (get k d) as [v |] eqn:Hg.
  - apply In_get.
    + unfold keys. rewrite map_rev. now apply NoDup_rev.
    + rewrite <- in_rev. now apply get_Some_In.
  - apply get_None. apply get_None in Hg.
    unfold keys in *. rewrite map_rev, <- in_rev. assumption.
Qed.

Lemma get_update_dict k d e :
  NoDup (keys e) ->
  get k (update d e) =
  match get k e with Some v => Some v | None => get k d end.
Proof. intros Hnd. rewrite get_update. now rewrite get_rev. Qed.

End Facts.

Lemma inb_In k l : inb k l = true <-> In k l.
Proof.
  unfold inb. rewrite existsb_exists. split.
  - intros [x [Hin Heq]]. apply String.eqb_eq in Heq. now subst.
  - intros Hin. exists k. split; [assumption | apply String.eqb_refl].
Qed.

End DictFacts.

Import DictFacts.

(** ** LossBase.__call__, step by step *)

Module CallFacts.
Import LossBase Resolution.

Lemma bind_ok {A B} (m : M A) (k : A -> M B) w a w' :
  m w = (Ok a, w') -> bind m k w = k a w'.
Proof. intros H. unfold bind. now rewrite H. Qed.

Lemma get_extend_old pm names k v :
  get k pm = Some v -> get k (extend pm names) = Some v.
Proof.
  unfold extend. revert pm.
  induction names as [| n names IH]; simpl; intros pm Hg; [assumption |].
  apply IH. destruct (mem n pm) eqn:Hm; [assumption |].
  rewrite get_set. eqb_case k n; [| assumption].
  unfold mem in Hm. now rewrite Hg in Hm.
Qed.

Lemma get_extend pm names k :
  get k (extend pm names) =
  match get k pm with
  | Some v => Some v
  | None => if inb k names then Some k else None
  end.
Proof.
  destruct (get k pm) as [v |] eqn:Hg; [now apply get_extend_old |].
  unfold extend. revert pm Hg.
  induction names as [| n names IH]; simpl; intros pm Hg; [assumption |].
  eqb_case k n; simpl.
  - unfold mem. rewrite Hg.
    apply (get_extend_old (set n n pm) names). apply get_set_eq.
  - apply IH. destruct (mem n pm); [assumption |].
    rewrite get_set_ne; [assumption | congruence].
Qed.

(** After the extension every parameter has an entry: its old one, or
    itself. *)
Lemma get_extended_param_map me p :
  In p (fn_params (get_loss me)) ->
  get p (extended_param_map me) = Some (resolve (param_map me) p).
Proof.
  intros Hin. unfold extended_param_map, resolve.
  rewrite !get_extend.
  destruct (get p (param_map me)); [reflexivity |].
  unfold fn_params in Hin. apply in_app_or in Hin.
  destruct (inb p (fn_args (get_loss me))) eqn:Ha; [reflexivity |].
  destruct Hin as [Hin | Hin].
  - apply inb_In in Hin. congruence.
  - apply inb_In in Hin. now rewrite Hin.
Qed.

Lemma for_each_add_identity names w :
  for_each names add_identity w =
  (Ok tt, with_fields w (extend (param_map (self w)) names)
                      (_checked (self w)) (calls w)).
Proof.
  revert w. induction names as [| n names IH]; intros w.
  - simpl. unfold ret, with_fields. destruct w as [[pm c f] log]. reflexivity.
  - cbn [for_each]. unfold bind at 1. unfold add_identity, bind, get_param_map.
    destruct (mem n (param_map (self w))) eqn:Hm; unfold ret, set_param_map;
      rewrite IH; unfold with_fields; cbn; rewrite ?Hm; reflexivity.
Qed.

Lemma collect_missing_spec pm pvd args acc w :
  (forall p, In p args -> exists name, get p pm = Some name) ->
  collect_missing pm pvd args acc w =
  (Ok (acc ++ filter (fun p => negb (mem (resolve pm p) pvd)) args), w).
Proof.
  revert acc. induction args as [| p args IH]; intros acc Hall; simpl.
  - now rewrite app_nil_r.
  - destruct (Hall p (or_introl eq_refl)) as [name Hname].
    unfold resolve at 1. rewrite Hname.
    rewrite IH by (intros q Hq; apply Hall; now right).
    destruct (mem name pvd); simpl; [reflexivity |].
    now rewrite <- app_assoc.
Qed.

(** the missing parameters read off the extended map are those read off
    the map at entry *)
Lemma missing_extended me od td :
  filter (fun p => negb (mem (resolve (extended_param_map me) p) (merged od td)))
         (fn_args (get_loss me))
  = missing_params me od td.
Proof.
  unfold missing_params. apply filter_ext_in. intros p Hin.
  assert (Hp : In p (fn_params (get_loss me)))
    by (unfold fn_params; apply in_or_app; now left).
  unfold resolve at 1. now rewrite (get_extended_param_map me p Hp).
Qed.

(** A function that declares [*args] is refused before anything else. *)
Lemma call_varargs od td fc w a :
  fn_varargs (get_loss (self w)) = Some a ->
  __call__ od td fc w =
  (Raise (RuntimeError ("The function " ++ fn_signature (get_loss (self w))
                        ++ " should not use Positional Argument.")), w).
Proof.
  intros Hv. unfold __call__, bind, get_self, _get_arg_list.
  destruct (fn_defaults (get_loss (self w))); rewrite Hv; reflexivity.
Qed.

(** The construction of line 74 passes five of the six fields: it raises
    TypeError whatever the two lists are. *)
Lemma check_res_of_line_74 (missing duplicated : list string) :
  exists msg,
    new_CheckRes [("missing", missing); ("unused", []);
                  ("duplicated", duplicated); ("required", []);
                  ("all_needed", [])]
    = Raise (TypeError msg).
Proof. eexists. reflexivity. Qed.

Lemma resolution_ok pm f od td :
  mem _map_args_first (merged od td) = false ->
  mem _build_args_first (_map_args (reversed pm) (merged od td)) = false ->
  resolution pm f od td = Ok (resolved_arguments pm f od td).
Proof.
  intros Hm Hf. unfold resolution, unpack. rewrite Hm, Hf. reflexivity.
Qed.

Lemma resolution_cases pm f od td :
  (resolution pm f od td = Ok (resolved_arguments pm f od td)
   /\ mem _map_args_first (merged od td) = false
   /\ mem _build_args_first (_map_args (reversed pm) (merged od td)) = false)
  \/ (exists msg, resolution pm f od td = Raise (TypeError msg)
                  /\ (mem _map_args_first (merged od td) = true
                      \/ mem _build_args_first
                             (_map_args (reversed pm) (merged od td)) = true)).
Proof.
  unfold resolution, unpack.
  destruct (mem _map_args_first (merged od td)) eqn:Hm.
  - right. eexists. split; [reflexivity | now left].
  - destruct (mem _build_args_first (_map_args (reversed pm) (merged od td)))
      eqn:Hf.
    + right. eexists. split; [reflexivity | now right].
    + left. auto.
Qed.

(** the part of the call after the detection, as the method runs it *)
Lemma call_tail (w : world) pm c log (od td : dict pyobj) :
  self w = mk pm c (get_loss (self w)) ->
  calls w = log ->
  (set_checked true ;;
   kw <- lift (unpack "_map_args" _map_args_first (merged od td)) ;;
   let param_map_val :=
     _map_args (of_items (map (fun kv => (snd kv, fst kv)) (items pm))) kw in
   kw <- lift (unpack "_build_args" _build_args_first param_map_val) ;;
   let param_value := _build_args (get_loss (self w)) kw in
   loss <- call_get_loss param_value ;;
   if negb (is_scalar_tensor loss) then
     if negb (is_tensor loss) then
       raise (RuntimeError ("loss ERROR: loss except a torch.Tensor but get "
                            ++ type_repr loss))
     else
       raise (RuntimeError "loss ERROR: the size of loss except torch.Size([]) but got loss.size")
   else ret loss) w
  = resolved_call w pm od td.
Proof.
  intros Hself Hlog. unfold resolved_call, resolution, reversed.
  unfold bind at 1. unfold set_checked at 1.
  unfold bind at 1. unfold lift at 1.
  destruct (unpack "_map_args" _map_args_first (merged od td)) as [kw | e].
  - cbv zeta. unfold bind at 1. unfold lift at 1. cbn [self get_loss].
    destruct (unpack "_build_args" _build_args_first _) as [kw' | e].
    + unfold bind, call_get_loss, ret, raise, checked_loss, with_fields.
      cbn [self calls param_map _checked get_loss].
      rewrite Hself. cbn [param_map get_loss].
      destruct (py_call _ _) as [loss | e]; try reflexivity.
      destruct loss as [sz dt | | | |]; try reflexivity.
      cbn [is_scalar_tensor is_tensor negb].
      destruct (Nat.eqb (List.length sz) 0); reflexivity.
    + unfold with_fields. rewrite Hself. reflexivity.
  - unfold with_fields. rewrite Hself. reflexivity.
Qed.

(** With the flag set and no [force_check] the call goes straight to the
    resolution. *)
Lemma call_skips od td w :
  fn_varargs (get_loss (self w)) = None ->
  _checked (self w) = true ->
  __call__ od td false w = resolved_call w (param_map (self w)) od td.
Proof.
  intros Hv Hc. unfold __call__.
  unfold bind at 1. unfold get_self at 1. cbv iota beta.
  unfold _get_arg_list.
  destruct w as [[pm c f] log]. cbn [self _checked get_loss param_map calls] in *.
  subst c.
  destruct (fn_defaults f) as [| d ds]; rewrite Hv;
    (unfold bind at 1; unfold set_checked at 1;
     cbn [self _checked get_loss param_map calls andb negb];
     unfold bind at 1; unfold get_checked at 1;
     cbn [self _checked get_loss param_map calls andb negb];
     unfold bind at 1; unfold ret at 1;
     unfold bind at 1; unfold get_param_map at 1;
     cbn [self _checked get_loss param_map calls andb negb];
     unfold bind at 1; unfold ret at 1;
     cbn [List.length Nat.ltb Nat.leb orb];
     exact (call_tail (mkWorld (mk pm true f) log) od td eq_refl eq_refl)).
Qed.

(** With checking enabled the map is extended and the two detections run;
    what they find decides between the construction of the [CheckRes],
    which fails, and the resolution. *)
Lemma call_checks od td fc w :
  fn_varargs (get_loss (self w)) = None ->
  _checked (self w) && negb fc = false ->
  __call__ od td fc w =
  let pm := extended_param_map (self w) in
  match duplicated_keys od td, missing_params (self w) od td with
  | [], [] => resolved_call w pm od td
  | _, _ =>
      (Raise (TypeError "__new__() missing required positional arguments"),
       with_fields w pm false (calls w))
  end.
Proof.
  intros Hv Hc. unfold __call__.
  assert (Hloop :
    (for_each (fn_args (get_loss (self w))) add_identity ;;
     match (match fn_defaults (get_loss (self w)) with
            | [] => None
            | ds => Some (map fst ds)
            end) with
     | Some defaults => for_each defaults add_identity
     | None => ret tt
     end)
      (with_fields w (param_map (self w)) false (calls w))
    = (Ok tt, with_fields w (extended_param_map (self w)) false (calls w))).
  { unfold bind. rewrite for_each_add_identity. simpl.
    unfold extended_param_map.
    destruct (fn_defaults (get_loss (self w))) as [| d ds].
    - reflexivity.
    - rewrite for_each_add_identity. reflexivity. }
  assert (Hmiss :
    collect_missing (extended_param_map (self w)) (merged od td)
                    (fn_args (get_loss (self w))) []
                    (with_fields w (extended_param_map (self w)) false (calls w))
    = (Ok (missing_params (self w) od td),
       with_fields w (extended_param_map (self w)) false (calls w))).
  { rewrite collect_missing_spec.
    - simpl. now rewrite missing_extended.
    - intros p Hp. eexists. apply get_extended_param_map.
      unfold fn_params. apply in_or_app. now left. }
  unfold bind at 1. unfold get_self at 1. cbv iota beta.
  unfold _get_arg_list.
  destruct (fn_defaults (get_loss (self w))) as [| d ds] eqn:Hd; rewrite Hv;
    (unfold bind at 1; unfold set_checked at 1; rewrite Hc;
     unfold bind at 1; unfold get_checked at 1; cbn [self _checked negb];
     erewrite bind_ok by exact Hloop;
     erewrite bind_ok by reflexivity;
     erewrite bind_ok by exact Hmiss;
     fold (duplicated_keys od td);
     destruct (duplicated_keys od td) as [| k dup];
     destruct (missing_params (self w) od td) as [| p miss];
     cbn [List.length Nat.ltb Nat.leb orb]; try reflexivity;
     exact (call_tail (with_fields w (extended_param_map (self w)) false (calls w))
                      od td eq_refl eq_refl)).
Qed.

(** Once the detection is behind it, a call either stops at a helper, the
    log as it was, or goes through one call of [get_loss]; the flag is set
    in both cases. *)
Lemma resolved_call_cases w pm od td :
  let R := resolved_call w pm od td in
  _checked (self (snd R)) = true
  /\ param_map (self (snd R)) = pm
  /\ get_loss (self (snd R)) = get_loss (self w)
  /\ ((calls (snd R) = calls w
       /\ exists msg, fst R = Raise (TypeError msg)
                      /\ resolution pm (get_loss (self w)) od td
                         = Raise (TypeError msg))
      \/ (calls (snd R) = calls w ++ [resolved_arguments pm (get_loss (self w)) od td]
          /\ fst R = checked_loss
                       (py_call (get_loss (self w))
                                (resolved_arguments pm (get_loss (self w)) od td))
          /\ resolution pm (get_loss (self w)) od td
             = Ok (resolved_arguments pm (get_loss (self w)) od td))).
Proof.
  simpl. unfold resolved_call.
  destruct (resolution_cases pm (get_loss (self w)) od td)
    as [[Hr _] | [msg [Hr _]]]; rewrite Hr; simpl.
  - repeat split. right. auto.
  - repeat split. left. split; [reflexivity |]. exists msg. auto.
Qed.

End CallFacts.

(** ** The resolution of the keyword arguments *)

Module ResolutionFacts.
Import LossBase Resolution CallFacts.



Lemma NoDup_merged (od td : dict pyobj) : NoDup (keys (merged od td)).
Proof. unfold merged. do 2 apply NoDup_update. constructor. Qed.


Lemma keys_merged (od td : dict pyobj) k :
  In k (keys (merged od td)) <-> In k (keys od) \/ In k (keys td).
Proof.
  rewrite <- !mem_In. unfold mem, merged, items. rewrite !get_update.
  assert (Hrev : forall (d : dict pyobj),
             (match get k (rev d) with Some _ => true | None => false end)
             = match get k d with Some _ => true | None => false end).
  { intros d. destruct (get k d) eqn:H1; destruct (get k (rev d)) eqn:H2;
      try reflexivity; exfalso.
    - apply get_None in H2. apply H2. unfold keys. rewrite map_rev, <- in_rev.
      apply get_Some_In in H1. change k with (fst (k, p)). now apply in_map.
    - apply get_None in H1. apply H1.
      apply get_Some_In in H2. apply in_rev in H2.
      change k with (fst (k, p)). now apply in_map. }
  specialize (Hrev td) as Htd. specialize (Hrev od) as Hod.
  destruct (get k (rev td)); destruct (get k td); try discriminate;
    destruct (get k (rev od)); destruct (get k od); try discriminate;
    simpl; intuition congruence.
Qed.














End ResolutionFacts.

(** ** LossBase.__call__: what a call does *)

Module LossBaseSpec.
Import LossBase Resolution CallFacts ResolutionFacts Examples.

(** A call ends in one of two ways: in an exception raised before
    [get_loss] is touched (the guard, the detection, a helper), or through
    one call of [get_loss]. *)
Lemma call_cases od td fc w :
  let R := __call__ od td fc w in
  (calls (snd R) = calls w /\ exists e, fst R = Raise e)
  \/ (exists pv, calls (snd R) = calls w ++ [pv]
                 /\ fst R = checked_loss (py_call (get_loss (self w)) pv)
                 /\ _checked (self (snd R)) = true).
Proof.
  simpl.
  assert (Hres : forall pm,
    let R := resolved_call w pm od td in
    (calls (snd R) = calls w /\ exists e, fst R = Raise e)
    \/ (exists pv, calls (snd R) = calls w ++ [pv]
                   /\ fst R = checked_loss (py_call (get_loss (self w)) pv)
                   /\ _checked (self (snd R)) = true)).
  { intros pm. simpl.
    destruct (resolved_call_cases w pm od td)
      as [Hflag [_ [_ [[Hlog [msg [Hr _]]] | [Hlog [Hr _]]]]]].
    - left. split; [exact Hlog | now exists (TypeError msg)].
    - right. eexists. split; [exact Hlog |]. split; [exact Hr | exact Hflag]. }
  destruct (fn_varargs (get_loss (self w))) as [a |] eqn:Hv.
  - rewrite (call_varargs od td fc w Hv). left. split; [reflexivity |].
    eexists. reflexivity.
  - destruct (_checked (self w) && negb fc) eqn:Hc.
    + apply andb_true_iff in Hc. destruct Hc as [Hc Hf].
      apply negb_true_iff in Hf. subst fc.
      rewrite (call_skips od td w Hv Hc). apply Hres.
    + rewrite (call_checks od td fc w Hv Hc). cbv zeta.
      destruct (duplicated_keys od td); destruct (missing_params (self w) od td);
        try (left; split; [reflexivity | eexists; reflexivity]).
      apply Hres.
Qed.

Lemma call_keeps_get_loss od td fc w :
  get_loss (self (snd (__call__ od td fc w))) = get_loss (self w).
Proof.
  destruct (fn_varargs (get_loss (self w))) as [a |] eqn:Hv.
  - now rewrite (call_varargs od td fc w Hv).
  - destruct (_checked (self w) && negb fc) eqn:Hc.
    + apply andb_true_iff in Hc. destruct Hc as [Hc Hf].
      apply negb_true_iff in Hf. subst fc.
      rewrite (call_skips od td w Hv Hc). apply resolved_call_cases.
    + rewrite (call_checks od td fc w Hv Hc). cbv zeta.
      destruct (duplicated_keys od td); destruct (missing_params (self w) od td);
        try reflexivity.
      apply resolved_call_cases.
Qed.

(** With checking enabled the map after the call is the extended one,
    whatever the call ends in. *)
Lemma call_checks_param_map od td fc w :
  fn_varargs (get_loss (self w)) = None ->
  _checked (self w) && negb fc = false ->
  param_map (self (snd (__call__ od td fc w))) = extended_param_map (self w).
Proof.
  intros Hv Hc. rewrite (call_checks od td fc w Hv Hc). cbv zeta.
  destruct (duplicated_keys od td); destruct (missing_params (self w) od td);
    try reflexivity.
  apply resolved_call_cases.
Qed.

(** With checking enabled, whatever the detection finds stops the call:
    the construction of the [CheckRes] raises TypeError, [get_loss] is not
    called and the flag stays false. *)
Lemma call_detects od td fc w :
  fn_varargs (get_loss (self w)) = None ->
  _checked (self w) && negb fc = false ->
  duplicated_keys od td <> [] \/ missing_params (self w) od td <> [] ->
  let R := __call__ od td fc w in
  (exists msg, fst R = Raise (TypeError msg))
  /\ calls (snd R) = calls w
  /\ _checked (self (snd R)) = false.
Proof.
  intros Hv Hc Hfound. simpl. rewrite (call_checks od td fc w Hv Hc). cbv zeta.
  destruct (duplicated_keys od td); destruct (missing_params (self w) od td);
    try (split; [eexists; reflexivity | split; reflexivity]).
  destruct Hfound as [H | H]; congruence.
Qed.

(** With checking enabled and nothing detected the call is the resolved
    call with the extended map. *)
Lemma call_passes od td fc w :
  fn_varargs (get_loss (self w)) = None ->
  _checked (self w) && negb fc = false ->
  duplicated_keys od td = [] ->
  missing_params (self w) od td = [] ->
  __call__ od td fc w = resolved_call w (extended_param_map (self w)) od td.
Proof.
  intros Hv Hc Hdup Hmiss. rewrite (call_checks od td fc w Hv Hc). cbv zeta.
  now rewrite Hdup, Hmiss.
Qed.

Lemma app_one_neq (A : Type) (l : list A) x : l <> l ++ [x].
Proof.
  intros H. apply (f_equal (@List.length A)) in H.
  rewrite length_app in H. simpl in H. lia.
Qed.

Lemma in_missing_params me od td p :
  In p (missing_params me od td) <->
  In p (fn_args (get_loss me))
  /\ ~ (In (resolve (param_map me) p) (keys od)
        \/ In (resolve (param_map me) p) (keys td)).
Proof.
  unfold missing_params. rewrite filter_In, negb_true_iff, mem_false.
  now rewrite keys_merged.
Qed.


(** *** Missing keys *)

(** The loop of lines 68-70 runs over the parameters without default: a
    parameter with a default value may map to an absent name and the call
    goes through with the default.  A function that declares [*args] is
    refused with a RuntimeError before the detection. *)
Lemma missing_default_is_not_detected :
  (_checked (self weighted) = false
   /\ In "weight" (fn_params (get_loss (self weighted)))
   /\ mem (resolve (param_map (self weighted)) "weight") (merged batch_pred [])
      = false
   /\ fst (__call__ batch_pred [] false weighted) = Ok scalar)
  /\ (_checked (self with_varargs) = false
      /\ In "pred" (fn_args (get_loss (self with_varargs)))
      /\ mem (resolve (param_map (self with_varargs)) "pred") (merged [] [])
         = false
      /\ is_CheckError (fst (__call__ [] [] false with_varargs)) = false).
Proof.
  repeat split; try reflexivity; simpl; auto.
Qed.

(** C2: [NewLoss(loss)] for [def loss(pred, target)], never called before,
    called on the output [{'pred': t}] and no target.  The detection finds
    the parameter [target] missing and line 73 sets out to raise CheckError,
    but the [CheckRes] of line 74 is built from five of its six fields
    ([LossInForward.get_loss] passes [varargs] as well): the construction
    raises TypeError, and no CheckError with a [missing] field comes out.
    [get_loss] is not called and [_checked] stays false, as the claim
    says. *)
Theorem missing_parameter_raises_no_CheckError :
  fn_varargs (get_loss (self plain)) = None
  /\ _checked (self plain) = false
  /\ missing_params (self plain) batch_pred [] = ["target"]
  /\ (exists msg, fst (__call__ batch_pred [] false plain) = Raise (TypeError msg))
  /\ is_CheckError (fst (__call__ batch_pred [] false plain)) = false
  /\ calls (snd (__call__ batch_pred [] false plain)) = calls plain
  /\ _checked (self (snd (__call__ batch_pred [] false plain))) = false
  /\ LossInForward.get_loss (LossInForward.mk "loss") batch_pred
     = Raise (CheckError (mkCheckRes ["loss"] [] [] [] [] [])
                         LossInForward.signature).
Proof.
  assert (Hfound : duplicated_keys batch_pred [] <> []
                   \/ missing_params (self plain) batch_pred [] <> [])
    by (right; discriminate).
  destruct (call_detects batch_pred [] false plain eq_refl eq_refl Hfound)
    as [[msg Hr] [Hlog Hflag]].
  repeat apply conj; try reflexivity; try assumption.
  now exists msg.
Qed.

(** *** Duplicated keys *)

(** A function that declares [*args] is refused with a RuntimeError before
    the keys are compared. *)
Lemma varargs_precedes_duplicates :
  _checked (self with_varargs) = false
  /\ In "target" (keys batch_pred_target) /\ In "target" (keys batch_target)
  /\ fst (__call__ batch_pred_target batch_target false with_varargs)
     = Raise (RuntimeError
                "The function loss(pred, *args) should not use Positional Argument.").
Proof.
  repeat split; try reflexivity; simpl; auto.
Qed.

(** C3: [NewLoss(loss)] for [def loss(pred, target)], never called before,
    called on an output and a target that share the key [seq_len], which no
    parameter needs.  The detection finds the key duplicated and line 73
    sets out to raise CheckError, but the [CheckRes] of line 74 is built
    from five of its six fields: the construction raises TypeError, and no
    CheckError with a [duplicated] field comes out.  [get_loss] is not
    called, as the claim says. *)
Theorem duplicated_key_raises_no_CheckError :
  fn_varargs (get_loss (self plain)) = None
  /\ _checked (self plain) = false
  /\ duplicated_keys batch_extra batch_extra_target = ["seq_len"]
  /\ missing_params (self plain) batch_extra batch_extra_target = []
  /\ (exists msg, fst (__call__ batch_extra batch_extra_target false plain)
                  = Raise (TypeError msg))
  /\ is_CheckError (fst (__call__ batch_extra batch_extra_target false plain))
     = false
  /\ calls (snd (__call__ batch_extra batch_extra_target false plain))
     = calls plain.
Proof.
  assert (Hfound : duplicated_keys batch_extra batch_extra_target <> []
                   \/ missing_params (self plain) batch_extra batch_extra_target
                      <> [])
    by (left; discriminate).
  destruct (call_detects batch_extra batch_extra_target false plain
                         eq_refl eq_refl Hfound)
    as [[msg Hr] [Hlog Hflag]].
  repeat apply conj; try reflexivity; try assumption.
  now exists msg.
Qed.

(** *** The extension of the parameter map *)

Lemma new_loss_param_map func key_map kwargs me :
  NoDup (keys kwargs) ->
  NewLoss.__init__ func key_map kwargs = Ok me ->
  (forall k v, get k kwargs = Some v -> get k (param_map me) = Some v)
  /\ (forall d k v, key_map = NewLoss.KeyMapDict d ->
                    get k d = Some v -> get k kwargs = None ->
                    get k (param_map me) = Some v).
Proof.
  intros Hnd Hinit. unfold NewLoss.__init__ in Hinit.
  assert (Hfold : forall (pm : dict string) k,
               get k (if (0 <? List.length kwargs)%nat
                      then fold_left (fun pm kv => set (fst kv) (snd kv) pm)
                                     (items kwargs) pm
                      else pm)
               = match get k kwargs with Some v => Some v | None => get k pm end).
  { intros pm k. destruct kwargs as [| kv kwargs']; [reflexivity |].
    change (get k (update pm (kv :: kwargs')) =
            match get k (kv :: kwargs') with Some v => Some v | None => get k pm end).
    now apply get_update_dict. }
  destruct key_map as [| d | v0]; try discriminate;
    injection Hinit as <-; simpl; split.
  - intros k v Hk. rewrite Hfold. now rewrite Hk.
  - intros d k v Hd. discriminate.
  - intros k v Hk. rewrite Hfold. now rewrite Hk.
  - intros d' k v [= <-] Hk Hnone. rewrite Hfold.
    now rewrite Hnone.
Qed.

(** C4, as the claim states it, fails for a function that declares
    [*args]: the call is refused before the map is touched, so a parameter
    that is no key of the map stays without entry. *)
Lemma varargs_leaves_param_map :
  _checked (self with_varargs) = false
  /\ In "pred" (fn_args (get_loss (self with_varargs)))
  /\ get "pred" (param_map (self with_varargs)) = None
  /\ get "pred" (param_map (self (snd (__call__ batch_pred batch_target true
                                                 with_varargs)))) = None.
Proof.
  repeat split; simpl; auto.
Qed.

(** C4, amended: on a call with checking enabled ([_checked] false at
    entry, or [force_check]) of an instance whose [get_loss] declares no
    [*args], every parameter of [get_loss], with or without default, that is
    no key of [param_map] becomes mapped to itself, every entry the map had
    before the call is kept, and nothing else is added; so the mappings that
    [NewLoss] was given (its keyword arguments, and the entries of [key_map]
    they do not override) are still there. *)
Theorem call_extends_param_map od td fc w :
  fn_varargs (get_loss (self w)) = None ->
  _checked (self w) && negb fc = false ->
  let pm := param_map (self w) in
  let pm' := param_map (self (snd (__call__ od td fc w))) in
  (forall p, In p (fn_args (get_loss (self w)))
             \/ In p (map fst (fn_defaults (get_loss (self w)))) ->
             get p pm = None -> get p pm' = Some p)
  /\ (forall k v, get k pm = Some v -> get k pm' = Some v)
  /\ (forall k, get k pm = None -> ~ In k (fn_params (get_loss (self w))) ->
                get k pm' = None)
  /\ (forall func key_map kwargs,
        NoDup (keys kwargs) ->
        NewLoss.__init__ func key_map kwargs = Ok (self w) ->
        (forall k v, get k kwargs = Some v -> get k pm' = Some v)
        /\ (forall d k v, key_map = NewLoss.KeyMapDict d ->
                          get k d = Some v -> get k kwargs = None ->
                          get k pm' = Some v)).
Proof.
  intros Hv Hc. simpl.
  assert (Hpm : param_map (self (snd (__call__ od td fc w)))
                = extended_param_map (self w))
    by now apply call_checks_param_map.
  rewrite Hpm.
  assert (Hold : forall k v, get k (param_map (self w)) = Some v ->
                             get k (extended_param_map (self w)) = Some v).
  { intros k v Hk. unfold extended_param_map. now do 2 apply get_extend_old. }
  split; [| split; [exact Hold | split]].
  - intros p Hp Hnone.
    rewrite get_extended_param_map
      by (unfold fn_params; apply in_or_app; exact Hp).
    unfold resolve. now rewrite Hnone.
  - intros k Hnone Hnot. unfold extended_param_map. rewrite !get_extend, Hnone.
    unfold fn_params in Hnot.
    destruct (inb k (fn_args (get_loss (self w)))) eqn:Ha.
    + exfalso. apply Hnot. apply in_or_app. left. now apply inb_In.
    + destruct (inb k (map fst (fn_defaults (get_loss (self w))))) eqn:Hd;
        [| reflexivity].
      exfalso. apply Hnot. apply in_or_app. right. now apply inb_In.
  - intros func key_map kwargs Hnd Hinit.
    destruct (new_loss_param_map func key_map kwargs Hnd Hinit) as [H1 H2].
    split.
    + intros k v Hk. apply Hold. now apply H1.
    + intros d k v Hd Hk Hnone. apply Hold. now apply (H2 d).
Qed.

(** [NewLoss(loss, pred='output')] called on a batch without the key
    [target]: the call raises, and the map has been extended all the same. *)
Lemma call_extends_param_map_witness :
  get "target" (param_map (self (snd (__call__ batch_output [] false renamed_pred))))
  = Some "target"
  /\ get "pred" (param_map (self (snd (__call__ batch_output [] false renamed_pred))))
     = Some "output".
Proof.
  destruct (call_extends_param_map batch_output [] false renamed_pred)
    as [Hnew [Hold _]].
  - reflexivity.
  - reflexivity.
  - split.
    + apply Hnew; [simpl; auto | reflexivity].
    + apply Hold. reflexivity.
Defined.

(** *** The resolved call *)



(** Why the amended claim asks that no two entries of the map share a name,
    whether their keys are parameters or not: with
    [NewLoss(loss, pred='x', zzz='x')] the reversed map sends [x] to [zzz],
    nothing is missing or duplicated, and [get_loss] is called without
    [pred]. *)
Example unused_entry_takes_over :
  duplicated_keys batch_x batch_target = []
  /\ missing_params (self unused_entry) batch_x batch_target = []
  /\ calls (snd (__call__ batch_x batch_target false unused_entry))
     = [[("target", vector)]]
  /\ is_TypeError (fst (__call__ batch_x batch_target false unused_entry)) = true.
Proof. repeat split. Qed.

(** Why the amended claim asks that no key shadows a parameter: with
    [NewLoss(loss, pred='output')], a batch that has both the key [output]
    and a key [pred] hands [pred] the value of whichever comes later. *)
Example shadowing_key_takes_over :
  calls (snd (__call__ [("output", scalar); ("pred", vector)] batch_target
                       false renamed_pred))
  = [[("pred", vector); ("target", vector)]]
  /\ calls (snd (__call__ [("pred", vector); ("output", scalar)] batch_target
                          false renamed_pred))
     = [[("pred", scalar); ("target", vector)]].
Proof. split; reflexivity. Qed.

(** Why the amended claim asks that no key bears the name of the first
    parameter of a helper: lines 80-81 unpack the dictionaries into keywords
    beside that parameter, so a batch with the key [maps] makes the call of
    [_map_args] raise TypeError, after the flag is set and before [get_loss]
    is called. *)
Example helper_parameter_name_is_refused :
  duplicated_keys batch_maps batch_target = []
  /\ missing_params (self plain) batch_maps batch_target = []
  /\ is_TypeError (fst (__call__ batch_maps batch_target false plain)) = true
  /\ calls (snd (__call__ batch_maps batch_target false plain)) = []
  /\ _checked (self (snd (__call__ batch_maps batch_target false plain))) = true.
Proof. repeat split. Qed.





(** *** The check of the loss *)

(** C7: the call returns a value only when [get_loss] was called and
    produced that value and the value is a tensor of zero dimensions; and
    whenever [get_loss] is called and produces a value, the call returns it
    if it is such a tensor and raises RuntimeError if it is not (no tensor,
    or a tensor with dimensions). *)
Theorem call_returns_scalar_tensor_only od td fc w :
  let R := __call__ od td fc w in
  (forall v, fst R = Ok v ->
             is_scalar_tensor v = true
             /\ exists pv, calls (snd R) = calls w ++ [pv]
                           /\ py_call (get_loss (self w)) pv = Ok v)
  /\ (forall pv v,
        calls (snd R) = calls w ++ [pv] ->
        py_call (get_loss (self w)) pv = Ok v ->
        if is_scalar_tensor v then fst R = Ok v
        else exists msg, fst R = Raise (RuntimeError msg)).
Proof.
  simpl. destruct (call_cases od td fc w) as [[Hcalls Hraise] | [pv [Hcalls [Hres _]]]].
  - split.
    + intros v Hok.
      destruct Hraise as [e H]. congruence.
    + intros pv v Hpv _. rewrite Hcalls in Hpv. now apply app_one_neq in Hpv.
  - split.
    + intros v Hok. rewrite Hres in Hok. unfold checked_loss in Hok.
      destruct (py_call (get_loss (self w)) pv) as [v' | e] eqn:Hcall;
        [| discriminate].
      destruct (is_scalar_tensor v') eqn:Hs.
      * injection Hok as <-. split; [assumption |]. now exists pv.
      * destruct (is_tensor v'); discriminate.
    + intros pv' v Hpv Hcall. rewrite Hcalls in Hpv.
      apply app_inv_head in Hpv. injection Hpv as <-.
      rewrite Hres, Hcall. unfold checked_loss.
      destruct (is_scalar_tensor v); [reflexivity |].
      destruct (is_tensor v); eexists; reflexivity.
Qed.

(** a loss function that returns a vector, and one that returns a scalar *)
Lemma call_returns_scalar_tensor_only_witness :
  (exists msg, fst (__call__ batch_pred_vector batch_target false plain)
               = Raise (RuntimeError msg))
  /\ fst (__call__ batch_pred batch_target false plain) = Ok scalar.
Proof.
  split.
  - exact (proj2 (call_returns_scalar_tensor_only batch_pred_vector batch_target
                                                  false plain)
                 [("pred", vector); ("target", vector)] vector eq_refl eq_refl).
  - exact (proj2 (call_returns_scalar_tensor_only batch_pred batch_target
                                                  false plain)
                 [("pred", scalar); ("target", vector)] scalar eq_refl eq_refl).
Defined.

(** *** The flag *)





End LossBaseSpec.

(** ** LossInForward *)

Module LossInForwardSpec.
Import LossInForward.

(** C9: [get_loss] raises CheckError when [loss_key] is no key of its
    keyword arguments and returns [None] otherwise; so [__call__] returns a
    loss for no input: it ends in that CheckError or in a TypeError. *)
Theorem loss_in_forward_never_returns me :
  (forall kwargs,
      get_loss me kwargs
      = if mem (loss_key me) kwargs then Ok PyNone
        else Raise (CheckError (mkCheckRes [loss_key me] [] [] [] [] []) signature))
  /\ (forall output_dict predict_dict force_check,
        let r := __call__ me output_dict predict_dict force_check in
        (forall loss, r <> Ok loss)
        /\ ((mem (loss_key me) output_dict = false
             /\ r = Raise (CheckError (mkCheckRes [loss_key me] [] [] [] [] [])
                                      signature))
            \/ exists msg, r = Raise (TypeError msg))).
Proof.
  split.
  - intros kwargs. unfold get_loss. now destruct (mem (loss_key me) kwargs).
  - intros od pd fc. unfold __call__, get_loss. simpl.
    destruct (mem "self" od).
    + split; [discriminate |]. right. eexists. reflexivity.
    + destruct (mem (loss_key me) od) eqn:Hk; simpl.
      * split; [discriminate |]. right. eexists. reflexivity.
      * split; [discriminate |]. left. split; reflexivity.
Qed.

End LossInForwardSpec.

(** ** Strings *)

Module PyStringFacts.
Import PyString.

Lemma string_of_app l1 l2 :
  string_of_list_ascii (l1 ++ l2)
  = (string_of_list_ascii l1 ++ string_of_list_ascii l2)%string.
Proof. induction l1 as [| c l1 IH]; simpl; [reflexivity | now rewrite IH]. Qed.

Lemma list_of_app s1 s2 :
  list_ascii_of_string (s1 ++ s2)
  = list_ascii_of_string s1 ++ list_ascii_of_string s2.
Proof. induction s1 as [| c s1 IH]; simpl; [reflexivity | now rewrite IH]. Qed.

Lemma length_list_of s : List.length (list_ascii_of_string s) = String.length s.
Proof. induction s as [| c s IH]; simpl; [reflexivity | now rewrite IH]. Qed.

(** Joining the pieces between the separators gives the string without
    the separators. *)
Lemma join_split_chars sep l :
  join_empty (map string_of_list_ascii (split_chars sep l))
  = string_of_list_ascii (filter (fun c => negb (Ascii.eqb c sep)) l).
Proof.
  induction l as [| c l IH]; simpl; [reflexivity |].
  destruct (Ascii.eqb c sep); simpl; [exact IH |].
  destruct (split_chars sep l) as [| piece pieces]; simpl in *.
  - now rewrite <- IH.
  - now rewrite <- IH.
Qed.

(** The last four characters are [loss] exactly when the string is some
    prefix followed by [loss]. *)
Lemma last_chars_loss s :
  String.eqb (last_chars 4 s) "loss" = true
  <-> exists prefix : string, s = (prefix ++ "loss")%string.
Proof.
  rewrite String.eqb_eq. unfold last_chars. split.
  - intros H.
    exists (string_of_list_ascii
              (firstn (List.length (list_ascii_of_string s) - 4)
                      (list_ascii_of_string s))).
    rewrite <- H, <- string_of_app, firstn_skipn.
    now rewrite string_of_list_ascii_of_string.
  - intros [prefix ->]. rewrite list_of_app, length_app. simpl.
    replace (List.length (list_ascii_of_string prefix) + 4 - 4)
      with (List.length (list_ascii_of_string prefix) + 0) by lia.
    rewrite skipn_app, Nat.add_0_r, skipn_all, Nat.sub_diag. reflexivity.
Qed.

End PyStringFacts.

(** ** Loss *)

Module LossSpec.
Import Loss Examples PyStringFacts.

Section WithTorch.
Context {torch : Torch}.

Lemma run_pre_pro_chain fs predict truth kwargs log :
  run_pre_pro fs predict truth kwargs log =
  (snd (chain (functions_of fs) kwargs (predict, truth)),
   log ++ map (fun p => PreProCall (fst p) (snd p))
              (fst (chain (functions_of fs) kwargs (predict, truth)))).
Proof.
  revert predict truth log.
  induction fs as [| [f |] fs IH]; intros predict truth log; simpl.
  - now rewrite app_nil_r.
  - destruct (f predict truth kwargs) as [[predict' truth'] | e]; simpl.
    + rewrite IH.
      destruct (chain (functions_of fs) kwargs (predict', truth')) as [seen last].
      simpl. now rewrite <- app_assoc.
    + reflexivity.
  - apply IH.
Qed.

Lemma functions_of_app fs gs :
  functions_of (fs ++ gs) = functions_of fs ++ functions_of gs.
Proof. unfold functions_of. apply flat_map_app. Qed.

(** the function at the end of the list is applied last, to the pair the
    ones before it produced *)
Lemma chain_snoc fs f kwargs pair seen q :
  chain fs kwargs pair = (seen, Ok q) ->
  chain (fs ++ [f]) kwargs pair = (seen ++ [q], f (fst q) (snd q) kwargs).
Proof.
  revert pair seen. induction fs as [| g fs IH]; intros pair seen; simpl.
  - intros [= <- <-]. simpl. now destruct (f (fst pair) (snd pair) kwargs).
  - destruct (g (fst pair) (snd pair) kwargs) as [next | e]; [| discriminate].
    destruct (chain fs kwargs next) as [seen' last] eqn:Hc.
    intros [= <- ->]. now rewrite (IH next seen' Hc).
Qed.

(** C5: a call applies the functions of [pre_pro] that are not [None], in
    the order of the list, each to the pair the one before returned, and
    then calls the loss function on the last pair and returns its result;
    an exception of a function ends the call before the loss function is
    reached.  A function added with [add_pre_pro] is applied after the ones
    that were there. *)
Theorem call_runs_pipeline (me : t) predict truth kwargs :
  __call__ me predict truth kwargs = pipeline me predict truth kwargs
  /\ (forall f seen q,
        chain (functions_of (pre_pro me)) kwargs (predict, truth) = (seen, Ok q) ->
        chain (functions_of (pre_pro (snd (add_pre_pro (Callable f) me))))
              kwargs (predict, truth)
        = (seen ++ [q], f (fst q) (snd q) kwargs)).
Proof.
  split.
  - unfold __call__, pipeline. rewrite run_pre_pro_chain.
    destruct (chain (functions_of (pre_pro me)) kwargs (predict, truth))
      as [seen last].
    simpl. destruct last as [[p t'] | e]; reflexivity.
  - intros f seen q Hc. simpl. rewrite functions_of_app. simpl.
    now apply chain_snoc.
Qed.

(** C10, as the claim states it, fails for an argument that cannot be
    hashed: the lookup in [method_dict] raises TypeError. *)
Lemma add_pre_pro_unhashable :
  fst (@add_pre_pro toy_torch (Value (PyList [])) l1)
  = Raise (TypeError "unhashable type: <class 'list'>").
Proof. reflexivity. Qed.

(** C10, amended: [add_pre_pro(func)] appends one element to [pre_pro],
    and changes nothing else, when [func] is callable (the element is
    [func]) or one of the four names of [method_dict] (the element is the
    function of that name); for every other argument that can be hashed it
    returns and leaves the instance as it was; for an argument that cannot
    be hashed it raises TypeError, the instance unchanged. *)
Theorem add_pre_pro_effect (me : t) :
  (forall f, add_pre_pro (Callable f) me
             = (Ok tt, mk (_loss me) (pre_pro me ++ [Some f])))
  /\ add_pre_pro (Value (PyStr "squash")) me
     = (Ok tt, mk (_loss me) (pre_pro me ++ [Some squash]))
  /\ add_pre_pro (Value (PyStr "unpad")) me
     = (Ok tt, mk (_loss me) (pre_pro me ++ [Some unpad]))
  /\ add_pre_pro (Value (PyStr "unpad_mask")) me
     = (Ok tt, mk (_loss me) (pre_pro me ++ [Some unpad_mask]))
  /\ add_pre_pro (Value (PyStr "mask")) me
     = (Ok tt, mk (_loss me) (pre_pro me ++ [Some mask]))
  /\ (forall v,
        hashable v = true ->
        (forall s, v = PyStr s ->
                   ~ In s ["squash"; "unpad"; "unpad_mask"; "mask"]) ->
        add_pre_pro (Value v) me = (Ok tt, me))
  /\ (forall v,
        hashable v = false ->
        exists msg, add_pre_pro (Value v) me = (Raise (TypeError msg), me)).
Proof.
  repeat split; try reflexivity.
  - intros v Hh Hv. unfold add_pre_pro, method_dict_get. rewrite Hh.
    destruct v as [sz dt | | n | s | l]; try reflexivity.
    specialize (Hv s eq_refl). simpl in Hv.
    change (get s method_dict) with
      (get s [("squash", squash); ("unpad", unpad);
              ("unpad_mask", unpad_mask); ("mask", mask)]).
    simpl.
    destruct (String.eqb_spec s "squash"); [intuition congruence |].
    destruct (String.eqb_spec s "unpad"); [intuition congruence |].
    destruct (String.eqb_spec s "unpad_mask"); [intuition congruence |].
    destruct (String.eqb_spec s "mask"); [intuition congruence |].
    reflexivity.
  - intros v Hh. unfold add_pre_pro, method_dict_get. rewrite Hh.
    eexists. reflexivity.
Qed.

(** every key of the table ends in [loss], as the source asks of it *)
Lemma table_keys_end_in_loss :
  Forall (fun kv => String.eqb (PyString.last_chars 4 (fst kv)) "loss" = true)
         loss_function_name.
Proof. repeat constructor. Qed.

(** C6: [_get_loss] looks up the name stripped of surrounding
    whitespace, in lower case, with every underscore deleted, and followed
    by [loss] exactly when that name has fewer than four characters or does
    not end in [loss]; it builds an instance of the class the table
    [loss_function_name] holds under that key, and raises KeyError when the
    table has no such key. *)
Theorem get_loss_normalises loss_name kwargs :
  let n := normalised loss_name in
  exists key,
    (String.length n < 4 \/ ~ ends_in_loss n -> key = (n ++ "loss")%string)
    /\ (~ (String.length n < 4 \/ ~ ends_in_loss n) -> key = n)
    /\ _get_loss loss_name kwargs
       = match get key loss_function_name with
         | Some cls => construct cls kwargs
         | None => Raise (KeyError key)
         end.
Proof.
  simpl. unfold _get_loss.
  assert (Hjoin : PyString.join_empty
                    (PyString.split "_" (PyString.lower (PyString.strip loss_name)))
                  = normalised loss_name).
  { unfold PyString.split, normalised, delete_underscores. apply join_split_chars. }
  rewrite Hjoin. set (n := normalised loss_name).
  unfold PyString.len, ends_in_loss.
  destruct (String.length n <? 4)%nat eqn:Hlen; simpl.
  - apply Nat.ltb_lt in Hlen. exists (n ++ "loss")%string.
    split; [reflexivity |]. split; [| reflexivity].
    intros H. exfalso. apply H. now left.
  - apply Nat.ltb_ge in Hlen.
    destruct (String.eqb (PyString.last_chars 4 n) "loss") eqn:Hend; simpl.
    + apply last_chars_loss in Hend. exists n. split.
      * intros [H | H]; [lia | contradiction].
      * split; reflexivity.
    + exists (n ++ "loss")%string. split; [reflexivity |].
      split; [| reflexivity].
      intros H. exfalso. apply H. right. intros Hex.
      apply last_chars_loss in Hex. congruence.
Qed.

End WithTorch.

(** spaces, capitals and an underscore; a name that ends in [loss] already;
    a name the table does not have *)
Lemma get_loss_normalises_witness :
  @_get_loss toy_torch "  Cross_Entropy " [] = Ok (CrossEntropyLoss, [])
  /\ @_get_loss toy_torch "NLL_Loss" [] = Ok (NLLLoss, [])
  /\ @_get_loss toy_torch "focal" [] = Raise (KeyError "focalloss").
Proof.
  split; [| split].
  - destruct (@get_loss_normalises toy_torch "  Cross_Entropy " [])
      as [key [Happend [_ Hget]]].
    rewrite Hget, Happend; [reflexivity |].
    right. intros H. apply last_chars_loss in H. discriminate.
  - destruct (@get_loss_normalises toy_torch "NLL_Loss" [])
      as [key [_ [Hkeep Hget]]].
    rewrite Hget, Hkeep; [reflexivity |].
    intros [H | H]; [vm_compute in H; lia |].
    apply H. exists "nll". reflexivity.
  - destruct (@get_loss_normalises toy_torch "focal" [])
      as [key [Happend [_ Hget]]].
    rewrite Hget, Happend; [reflexivity |].
    right. intros H. apply last_chars_loss in H. discriminate.
Defined.

Lemma call_runs_pipeline_witness :
  @__call__ toy_torch l1 (PyStr "p") scalar []
  = (Ok (PyStr "pab"),
     [PreProCall (PyStr "p") scalar; PreProCall (PyStr "pa") scalar;
      LossCall (PyStr "pab") scalar]).
Proof.
  rewrite (proj1 (@call_runs_pipeline toy_torch l1 (PyStr "p") scalar [])).
  reflexivity.
Defined.

Lemma add_pre_pro_effect_witness :
  (pre_pro (snd (@add_pre_pro toy_torch (Value (PyStr "mask")) l1))
   = pre_pro l1 ++ [Some (@mask toy_torch)])
  /\ @add_pre_pro toy_torch (Value (PyStr "masks")) l1 = (Ok tt, l1)
  /\ @add_pre_pro toy_torch (Value PyNone) l1 = (Ok tt, l1).
Proof.
  destruct (@add_pre_pro_effect toy_torch l1) as [_ [_ [_ [_ [Hmask [Hother _]]]]]].
  split; [now rewrite Hmask | split].
  - apply Hother; [reflexivity |].
    intros s [= <-]. simpl. intuition discriminate.
  - apply Hother; [reflexivity |]. intros s. discriminate.
Defined.

End LossSpec.

(** * Further properties of the code *)

(** ** LossBase.__call__: refusal, the map and the flag over many calls *)

Module LossBaseMore.
Import LossBase Resolution CallFacts ResolutionFacts LossBaseSpec Examples
  MoreExamples.

(** X1: a [get_loss] that declares [*args] is refused with RuntimeError on
    every call, whatever the dictionaries and [force_check]; the guard comes
    first, so the map, the flag (also under [force_check]) and the log of
    calls are left as they were.  The method [LossBase.get_loss] declares
    [*args]: an instance of the base class is refused like this. *)
Theorem varargs_function_is_refused od td fc w a :
  fn_varargs (get_loss (self w)) = Some a ->
  exists msg, __call__ od td fc w = (Raise (RuntimeError msg), w).
Proof.
  intros Hv. rewrite (call_varargs od td fc w Hv). eexists. reflexivity.
Qed.

Lemma varargs_function_is_refused_witness :
  exists msg,
    __call__ batch_pred batch_target true (mkWorld LossBaseClass.__init__ [])
    = (Raise (RuntimeError msg), mkWorld LossBaseClass.__init__ []).
Proof.
  exact (varargs_function_is_refused batch_pred batch_target true
           (mkWorld LossBaseClass.__init__ []) (a:="args") eq_refl).
Defined.

Lemma get_extend_inv pm names k v :
  get k (extend pm names) = Some v ->
  get k pm = Some v \/ (v = k /\ In k names).
Proof.
  rewrite get_extend. destruct (get k pm) as [v' |]; [now left |].
  destruct (inb k names) eqn:Hin; [| discriminate].
  intros [= <-]. right. split; [reflexivity | now apply inb_In].
Qed.

Lemma get_extended_inv me k v :
  get k (extended_param_map me) = Some v ->
  get k (param_map me) = Some v \/ (v = k /\ In k (fn_params (get_loss me))).
Proof.
  unfold extended_param_map, fn_params. intros H.
  apply get_extend_inv in H. destruct H as [H | [-> H]].
  - apply get_extend_inv in H. destruct H as [H | [-> H]]; [now left |].
    right. split; [reflexivity | apply in_or_app; now left].
  - right. split; [reflexivity | apply in_or_app; now right].
Qed.

(** what one call leaves of the instance and of the log *)
Lemma call_frame od td fc w :
  let w' := snd (__call__ od td fc w) in
  get_loss (self w') = get_loss (self w)
  /\ (param_map (self w') = param_map (self w)
      \/ (fn_varargs (get_loss (self w)) = None
          /\ _checked (self w) && negb fc = false
          /\ param_map (self w') = extended_param_map (self w)))
  /\ (calls w' = calls w \/ exists pv, calls w' = calls w ++ [pv]).
Proof.
  simpl. split; [apply call_keeps_get_loss |]. split.
  - destruct (fn_varargs (get_loss (self w))) as [a |] eqn:Hv.
    + rewrite (call_varargs od td fc w Hv). now left.
    + destruct (_checked (self w) && negb fc) eqn:Hc.
      * apply andb_true_iff in Hc. destruct Hc as [Hc Hf].
        apply negb_true_iff in Hf. subst fc.
        rewrite (call_skips od td w Hv Hc). left. apply resolved_call_cases.
      * right. split; [reflexivity |]. split; [reflexivity |].
        now apply call_checks_param_map.
  - destruct (call_cases od td fc w) as [[H _] | [pv [H _]]];
      [now left | right; now exists pv].
Qed.

(** X2: over any sequence of calls on one instance, [get_loss] stays the
    same function, no entry of [param_map] is changed or removed, every
    entry that appears maps a parameter of [get_loss] to itself, and
    [get_loss] is called at most once per call, the log only growing. *)
Theorem calls_only_add_identity_entries l w :
  let w' := snd (run_calls l w) in
  get_loss (self w') = get_loss (self w)
  /\ (forall k v, get k (param_map (self w)) = Some v ->
                  get k (param_map (self w')) = Some v)
  /\ (forall k v, get k (param_map (self w')) = Some v ->
                  get k (param_map (self w)) = Some v
                  \/ (v = k /\ In k (fn_params (get_loss (self w)))))
  /\ (exists new, calls w' = calls w ++ new
                  /\ List.length new <= List.length l).
Proof.
  revert w. induction l as [| [[od td] fc] l IH]; intros w.
  - simpl. repeat split; auto. exists []. simpl. split; [now rewrite app_nil_r | lia].
  - simpl.
    destruct (call_frame od td fc w) as [Hf [Hpm Hlog]]. simpl in Hf, Hpm, Hlog.
    destruct (__call__ od td fc w) as [r w1]. simpl in Hf, Hpm, Hlog.
    specialize (IH w1). simpl in IH.
    destruct (run_calls l w1) as [rs w2]. simpl in IH |- *.
    destruct IH as [IHf [IHold [IHnew [new [IHlog IHlen]]]]].
    assert (Hold1 : forall k v, get k (param_map (self w)) = Some v ->
                                get k (param_map (self w1)) = Some v).
    { intros k v Hk. destruct Hpm as [-> | [_ [_ ->]]]; [assumption |].
      unfold extended_param_map. now do 2 apply get_extend_old. }
    assert (Hnew1 : forall k v, get k (param_map (self w1)) = Some v ->
               get k (param_map (self w)) = Some v
               \/ (v = k /\ In k (fn_params (get_loss (self w))))).
    { intros k v Hk. destruct Hpm as [Hpm | [_ [_ Hpm]]]; rewrite Hpm in Hk;
        [now left | now apply get_extended_inv]. }
    split; [congruence |]. split; [auto |]. split.
    + intros k v Hk. apply IHnew in Hk. rewrite Hf in Hk.
      destruct Hk as [Hk | Hk]; [now apply Hnew1 | now right].
    + destruct Hlog as [Hlog | [pv Hlog]]; rewrite IHlog, Hlog.
      * exists new. split; [reflexivity | lia].
      * exists (pv :: new). rewrite <- app_assoc. simpl. split; [reflexivity | lia].
Qed.

Lemma extend_fixed pm names :
  (forall n, In n names -> mem n pm = true) -> extend pm names = pm.
Proof.
  unfold extend. induction names as [| n names IH]; simpl; intros H;
    [reflexivity |].
  rewrite (H n (or_introl eq_refl)). apply IH. intros m Hm. apply H. now right.
Qed.

Lemma extended_fixed me :
  (forall p, In p (fn_params (get_loss me)) -> mem p (param_map me) = true) ->
  extended_param_map me = param_map me.
Proof.
  intros H. unfold extended_param_map, fn_params in *.
  rewrite (extend_fixed (param_map me) (fn_args (get_loss me)))
    by (intros n Hn; apply H; apply in_or_app; now left).
  apply extend_fixed. intros n Hn. apply H. apply in_or_app. now right.
Qed.

Lemma run_calls_fixed l w :
  (forall p, In p (fn_params (get_loss (self w))) ->
             mem p (param_map (self w)) = true) ->
  param_map (self (snd (run_calls l w))) = param_map (self w).
Proof.
  revert w. induction l as [| [[od td] fc] l IH]; intros w Hall; [reflexivity |].
  simpl.
  destruct (call_frame od td fc w) as [Hf [Hpm _]]. simpl in Hf, Hpm.
  destruct (__call__ od td fc w) as [r w1]. simpl in Hf, Hpm.
  assert (Hpm1 : param_map (self w1) = param_map (self w)).
  { destruct Hpm as [Hpm | [_ [_ Hpm]]]; [assumption |].
    rewrite Hpm. now apply extended_fixed. }
  specialize (IH w1). destruct (run_calls l w1) as [rs w2]. simpl in IH |- *.
  rewrite IH; [assumption |]. rewrite Hf, Hpm1. assumption.
Qed.

(** X3: once a call has run with checking enabled (of an instance whose
    [get_loss] declares no [*args]), [param_map] holds every parameter of
    [get_loss] and no later call, forced or not, changes it. *)
Theorem param_map_settles od td fc w l :
  fn_varargs (get_loss (self w)) = None ->
  _checked (self w) && negb fc = false ->
  let w1 := snd (__call__ od td fc w) in
  (forall p, In p (fn_params (get_loss (self w))) ->
             get p (param_map (self w1)) = Some (resolve (param_map (self w)) p))
  /\ param_map (self (snd (run_calls l w1))) = param_map (self w1).
Proof.
  intros Hv Hc. simpl.
  assert (Hpm : param_map (self (snd (__call__ od td fc w)))
                = extended_param_map (self w))
    by now apply call_checks_param_map.
  split.
  - intros p Hp. rewrite Hpm. now apply get_extended_param_map.
  - apply run_calls_fixed. intros p Hp.
    rewrite call_keeps_get_loss in Hp. unfold mem. rewrite Hpm.
    now rewrite (get_extended_param_map (self w) p Hp).
Qed.

Lemma param_map_settles_witness :
  param_map (self (snd (run_calls [ (batch_pred_target, batch_target, true);
                                    (batch_pred, batch_target, true);
                                    (batch_output, batch_target, false) ]
                                  (snd (__call__ batch_output [] false renamed_pred)))))
  = [("pred", "output"); ("target", "target")].
Proof.
  destruct (param_map_settles batch_output [] false renamed_pred
              [ (batch_pred_target, batch_target, true);
                (batch_pred, batch_target, true);
                (batch_output, batch_target, false) ] eq_refl eq_refl)
    as [_ H].
  rewrite H. reflexivity.
Defined.

(** X4: when the detection finds nothing, [_checked] is set before the
    helpers and [get_loss] are called: the flag is true after the call in
    every case.  When a helper refuses its keywords (a key named like its
    first parameter) the TypeError comes out and [get_loss] is not called;
    otherwise [get_loss] is called exactly once, an exception it raises goes
    through unchanged, and a value that is no scalar tensor is refused with
    RuntimeError. *)
Theorem flag_is_set_before_get_loss od td fc w :
  fn_varargs (get_loss (self w)) = None ->
  _checked (self w) && negb fc = false ->
  duplicated_keys od td = [] ->
  missing_params (self w) od td = [] ->
  let R := __call__ od td fc w in
  let f := get_loss (self w) in
  let pm := extended_param_map (self w) in
  _checked (self (snd R)) = true
  /\ match resolution pm f od td with
     | Raise e =>
         fst R = Raise e /\ is_TypeError (fst R) = true
         /\ calls (snd R) = calls w
     | Ok pv =>
         calls (snd R) = calls w ++ [pv]
         /\ (forall e, py_call f pv = Raise e -> fst R = Raise e)
         /\ (forall v, py_call f pv = Ok v ->
                       is_scalar_tensor v = false ->
                       exists msg, fst R = Raise (RuntimeError msg))
     end
  /\ (~ In _map_args_first (keys (merged od td)) ->
      ~ In _build_args_first (keys (_map_args (reversed pm) (merged od td))) ->
      resolution pm f od td = Ok (resolved_arguments pm f od td)).
Proof.
  intros Hv Hc Hdup Hmiss. simpl.
  rewrite (call_passes od td fc w Hv Hc Hdup Hmiss).
  destruct (resolved_call_cases w (extended_param_map (self w)) od td)
    as [Hflag [_ [_ Hor]]].
  split; [exact Hflag |]. split.
  - destruct Hor as [[Hlog [msg [Hr Hres]]] | [Hlog [Hr Hres]]]; rewrite Hres.
    + split; [exact Hr |]. split; [now rewrite Hr | exact Hlog].
    + split; [exact Hlog |]. split.
      * intros e He. rewrite Hr, He. reflexivity.
      * intros v Hok Hs. rewrite Hr, Hok. simpl. rewrite Hs.
        destruct (is_tensor v); eexists; reflexivity.
  - intros Hmaps Hfunc. apply resolution_ok; now apply mem_false.
Qed.

(** a loss function that raises: the exception comes out and the flag is
    set; a batch with the key [maps]: the helper refuses it, the flag is set
    all the same *)
Lemma flag_is_set_before_get_loss_witness :
  (fst (__call__ batch_pred batch_target false failing) = Raise (KeyError "boom")
   /\ _checked (self (snd (__call__ batch_pred batch_target false failing))) = true)
  /\ (is_TypeError (fst (__call__ batch_maps batch_target false plain)) = true
      /\ _checked (self (snd (__call__ batch_maps batch_target false plain))) = true
      /\ calls (snd (__call__ batch_maps batch_target false plain)) = []).
Proof.
  split.
  - destruct (flag_is_set_before_get_loss batch_pred batch_target false failing
                eq_refl eq_refl eq_refl eq_refl)
      as [Hflag [[_ [Hraise _]] _]].
    split; [exact (Hraise (KeyError "boom") eq_refl) | exact Hflag].
  - destruct (flag_is_set_before_get_loss batch_maps batch_target false plain
                eq_refl eq_refl eq_refl eq_refl)
      as [Hflag [[_ [Htype Hlog]] _]].
    split; [exact Htype | split; [exact Hflag | exact Hlog]].
Defined.

(** X5: with checking enabled (and no [*args]) a duplicated key or a
    missing parameter without default stops the call before [get_loss]: the
    [CheckRes] of line 74 is built from five of its six fields, so the call
    raises TypeError, the map already extended and the flag false.  A
    CheckError comes out of the call only when [get_loss] itself was called
    and raised it. *)
Theorem detection_raises_no_CheckError od td fc w :
  fn_varargs (get_loss (self w)) = None ->
  _checked (self w) && negb fc = false ->
  let R := __call__ od td fc w in
  let f := get_loss (self w) in
  (duplicated_keys od td <> [] \/ missing_params (self w) od td <> [] ->
   (exists msg, fst R = Raise (TypeError msg))
   /\ calls (snd R) = calls w
   /\ _checked (self (snd R)) = false
   /\ param_map (self (snd R)) = extended_param_map (self w))
  /\ (calls (snd R) <> calls w ->
      duplicated_keys od td = [] /\ missing_params (self w) od td = [])
  /\ (forall res sig, fst R = Raise (CheckError res sig) ->
        exists pv, calls (snd R) = calls w ++ [pv]
                   /\ py_call f pv = Raise (CheckError res sig)).
Proof.
  intros Hv Hc. simpl. split; [| split].
  - intros Hfound.
    destruct (call_detects od td fc w Hv Hc Hfound) as [Hr [Hlog Hflag]].
    split; [exact Hr |]. split; [exact Hlog |]. split; [exact Hflag |].
    now apply call_checks_param_map.
  - intros Hlog.
    destruct (duplicated_keys od td) as [| k dup] eqn:Hdup;
      destruct (missing_params (self w) od td) as [| p miss] eqn:Hmiss;
      [auto | exfalso | exfalso | exfalso];
      apply Hlog;
      refine (proj1 (proj2 (call_detects od td fc w Hv Hc _)));
      rewrite ?Hdup, ?Hmiss; solve [left; discriminate | right; discriminate].
  - intros res sig Hr.
    destruct (call_cases od td fc w) as [[Hlog [e He]] | [pv [Hlog [Hres _]]]].
    + exfalso.
      destruct (duplicated_keys od td) as [| k dup] eqn:Hdup;
        destruct (missing_params (self w) od td) as [| p miss] eqn:Hmiss.
      * rewrite (call_passes od td fc w Hv Hc Hdup Hmiss) in Hr, Hlog.
        destruct (resolved_call_cases w (extended_param_map (self w)) od td)
          as [_ [_ [_ [[_ [msg [Hr' _]]] | [Hlog' _]]]]].
        -- congruence.
        -- rewrite Hlog' in Hlog. symmetry in Hlog.
           now apply app_one_neq in Hlog.
      * destruct (call_detects od td fc w Hv Hc) as [[msg Hr'] _];
          [rewrite Hmiss; right; discriminate | congruence].
      * destruct (call_detects od td fc w Hv Hc) as [[msg Hr'] _];
          [rewrite Hdup; left; discriminate | congruence].
      * destruct (call_detects od td fc w Hv Hc) as [[msg Hr'] _];
          [rewrite Hdup; left; discriminate | congruence].
    + exists pv. split; [exact Hlog |].
      rewrite Hres in Hr. unfold checked_loss in Hr.
      destruct (py_call (get_loss (self w)) pv) as [v | e]; [| exact Hr].
      destruct (is_scalar_tensor v); [discriminate |].
      destruct (is_tensor v); discriminate.
Qed.

(** a batch with a duplicated key and a missing parameter at once *)
Lemma detection_raises_no_CheckError_witness :
  (exists msg, fst (__call__ batch_extra [("seq_len", scalar)] false plain)
               = Raise (TypeError msg))
  /\ calls (snd (__call__ batch_extra [("seq_len", scalar)] false plain)) = []
  /\ param_map (self (snd (__call__ batch_extra [("seq_len", scalar)] false plain)))
     = [("pred", "pred"); ("target", "target")].
Proof.
  destruct (detection_raises_no_CheckError batch_extra [("seq_len", scalar)]
                                           false plain eq_refl eq_refl)
    as [H _].
  destruct H as [Hr [Hlog [_ Hpm]]]; [left; discriminate |].
  split; [exact Hr |]. split; [exact Hlog | exact Hpm].
Defined.

(** X6: the dictionary handed to the resolution has exactly the keys of
    [output_dict] and of [target_dict], each once; a key of [target_dict]
    has the value [target_dict] gives it, any other key the value of
    [output_dict]. *)
Theorem merged_lookup (od td : dict pyobj) :
  NoDup (keys od) ->
  NoDup (keys td) ->
  NoDup (keys (merged od td))
  /\ (forall k, In k (keys (merged od td)) <-> In k (keys od) \/ In k (keys td))
  /\ (forall k, get k (merged od td)
                = match get k td with Some v => Some v | None => get k od end).
Proof.
  intros Hod Htd. split; [apply NoDup_merged |]. split; [apply keys_merged |].
  intros k. unfold merged, items.
  rewrite (get_update_dict k (update [] od) td Htd).
  destruct (get k td); [reflexivity |].
  rewrite (get_update_dict k [] od Hod). now destruct (get k od).
Qed.

Lemma merged_lookup_witness :
  get "target" (merged batch_pred_target batch_target) = Some vector
  /\ get "pred" (merged batch_pred_target batch_target) = Some scalar.
Proof.
  destruct (merged_lookup batch_pred_target batch_target) as [_ [_ H]].
  - simpl. repeat constructor; simpl; intuition discriminate.
  - simpl. repeat constructor; simpl; tauto.
  - split; rewrite H; reflexivity.
Defined.

End LossBaseMore.

(** ** The constructors and [_prepare_losser] *)

Module ConstructorsSpec.
Import Examples.

(** X7: [NewLoss.__init__] raises RuntimeError when [key_map] is neither
    [None] nor a dictionary; otherwise the instance starts unchecked around
    [func], and its [param_map] reads a name from the keyword arguments
    first and from [key_map] only for a name they do not give. *)
Theorem new_loss_init func key_map (kwargs : dict string) :
  NoDup (keys kwargs) ->
  match key_map with
  | NewLoss.KeyMapOther _ =>
      exists msg, NewLoss.__init__ func key_map kwargs = Raise (RuntimeError msg)
  | _ =>
      exists me,
        NewLoss.__init__ func key_map kwargs = Ok me
        /\ LossBase._checked me = false
        /\ LossBase.get_loss me = func
        /\ forall k,
             get k (LossBase.param_map me)
             = match get k kwargs with
               | Some name => Some name
               | None => match key_map with
                         | NewLoss.KeyMapDict d => get k d
                         | _ => None
                         end
               end
  end.
Proof.
  intros Hnd.
  assert (Hfold : forall (pm : dict string) k,
             get k (if (0 <? List.length kwargs)%nat
                    then fold_left (fun pm kv => set (fst kv) (snd kv) pm)
                                   (items kwargs) pm
                    else pm)
             = match get k kwargs with Some v => Some v | None => get k pm end).
  { intros pm k. destruct kwargs as [| kv kwargs']; [reflexivity |].
    change (get k (update pm (kv :: kwargs')) =
            match get k (kv :: kwargs') with Some v => Some v | None => get k pm end).
    now apply get_update_dict. }
  destruct key_map as [| d | v]; unfold NewLoss.__init__.
  - eexists. repeat split. intros k. simpl. apply Hfold.
  - eexists. repeat split. intros k. simpl. apply Hfold.
  - eexists. reflexivity.
Qed.

(** [NewLoss(loss, {'pred': 'out', 'target': 'y'}, pred='output')] *)
Lemma new_loss_init_witness :
  exists me,
    NewLoss.__init__ loss_pred_target
                     (NewLoss.KeyMapDict [("pred", "out"); ("target", "y")])
                     [("pred", "output")] = Ok me
    /\ get "pred" (LossBase.param_map me) = Some "output"
    /\ get "target" (LossBase.param_map me) = Some "y".
Proof.
  destruct (new_loss_init loss_pred_target
              (NewLoss.KeyMapDict [("pred", "out"); ("target", "y")])
              [("pred", "output")]) as [me [Hinit [_ [_ Hget]]]].
  - simpl. repeat constructor. simpl. tauto.
  - exists me. split; [exact Hinit |]. split; rewrite Hget; reflexivity.
Defined.

(** X8: [_prepare_losser] gives back an instance of [LossBase] as it is,
    raises TypeError for any other value, and builds [LossInForward()] with
    the key [loss] for [None]; the losser built for [None] returns a loss
    for no batch: its call ends in an exception whatever [output_dict]
    holds.  [LossInForward.__init__] takes a string as the key and raises
    TypeError for any other value. *)
Theorem prepare_losser_default_never_returns :
  Prepare._prepare_losser Prepare.LosserNone
  = Ok (Prepare.ALossInForward (LossInForward.mk "loss"))
  /\ (forall l, Prepare._prepare_losser (Prepare.LosserInstance l) = Ok l)
  /\ (forall v, exists msg,
         Prepare._prepare_losser (Prepare.LosserOther v) = Raise (TypeError msg))
  /\ (forall l output_dict target_dict log,
        Prepare._prepare_losser Prepare.LosserNone = Ok l ->
        exists e, Prepare.call_losser l output_dict target_dict log = Raise e)
  /\ (forall s, LossInForwardClass.__init__ (Some (PyStr s))
                = Ok (LossInForward.mk s))
  /\ (forall v, (forall s, v <> PyStr s) ->
                exists msg,
                  LossInForwardClass.__init__ (Some v) = Raise (TypeError msg)).
Proof.
  split; [reflexivity |]. split; [reflexivity |]. split; [| split; [| split]].
  - intros v. eexists. reflexivity.
  - intros l od td log [= <-]. simpl.
    unfold LossInForward.__call__, LossInForward.get_loss. simpl.
    destruct (mem "self" od); [eexists; reflexivity |].
    destruct (mem "loss" od); eexists; reflexivity.
  - reflexivity.
  - intros v Hv. destruct v; try (eexists; reflexivity).
    now destruct (Hv s).
Qed.

End ConstructorsSpec.

(** ** Loss: construction, the list of functions, and names *)

Module LossMore.
Import Loss LossClient Examples PyStringFacts LossSpec.

Section WithTorch.
Context {torch : Torch}.

(** a call sees of [pre_pro] only its functions, in order *)
Lemma call_depends_on_functions (me1 me2 : t) predict truth kwargs :
  functions_of (pre_pro me1) = functions_of (pre_pro me2) ->
  _loss me1 = _loss me2 ->
  __call__ me1 predict truth kwargs = __call__ me2 predict truth kwargs.
Proof.
  intros Hf Hl. unfold __call__. rewrite !run_pre_pro_chain, Hf, Hl. reflexivity.
Qed.

Lemma add_all_cons a l (me : t) :
  add_all (a :: l) me = add_all l (snd (add_pre_pro a me)).
Proof. reflexivity. Qed.

Lemma add_all_functions l : forall (me : t) entries,
  translate l = Ok entries ->
  functions_of (pre_pro (add_all l me))
  = functions_of (pre_pro me) ++ functions_of entries
  /\ _loss (add_all l me) = _loss me.
Proof.
  induction l as [| a l IH]; intros me entries Htr.
  - simpl in Htr. injection Htr as <-. simpl. now rewrite app_nil_r.
  - rewrite add_all_cons. simpl in Htr. destruct a as [f | v].
    + destruct (translate l) as [rest |] eqn:Hrest; [| discriminate].
      injection Htr as <-.
      destruct (IH (snd (add_pre_pro (Callable f) me)) rest eq_refl) as [H1 H2].
      rewrite H1, H2. simpl. rewrite functions_of_app. simpl.
      now rewrite <- app_assoc.
    + unfold add_pre_pro.
      destruct (method_dict_get v) as [[f |] | e] eqn:Hget; [| | discriminate];
        (destruct (translate l) as [rest |] eqn:Hrest; [| discriminate]);
        injection Htr as <-.
      * destruct (IH (mk (_loss me) (pre_pro me ++ [Some f])) rest eq_refl)
          as [H1 H2].
        simpl. rewrite H1, H2. simpl. rewrite functions_of_app. simpl.
        now rewrite <- app_assoc.
      * destruct (IH me rest eq_refl) as [H1 H2]. simpl. now rewrite H1, H2.
Qed.

Lemma translate_length l : forall entries,
  translate l = Ok entries -> List.length entries = List.length l.
Proof.
  induction l as [| a l IH]; intros entries Htr; simpl in *.
  - now injection Htr as <-.
  - destruct (match a with Callable g => Ok (Some g) | Value v => method_dict_get v end);
      [| discriminate].
    destruct (translate l) as [rest |]; [| discriminate].
    injection Htr as <-. simpl. now rewrite (IH rest eq_refl).
Qed.

(** X9: handing a list of functions and names to [__init__] and adding
    them one by one with [add_pre_pro] to an instance built with the empty
    list give instances that behave alike on every call (same result, same
    functions applied in the same order), although [__init__] keeps a
    [None] in the place of every name it does not know and [add_pre_pro]
    adds nothing for it. *)
Theorem init_list_is_adding_one_by_one loss_name l kwargs (me : t) :
  __init__ loss_name l kwargs = Ok me ->
  List.length (pre_pro me) = List.length l
  /\ exists me0,
       __init__ loss_name [] kwargs = Ok me0
       /\ pre_pro me0 = []
       /\ functions_of (pre_pro (add_all l me0)) = functions_of (pre_pro me)
       /\ forall predict truth kws,
            __call__ (add_all l me0) predict truth kws
            = __call__ me predict truth kws.
Proof.
  unfold __init__. intros Hinit.
  destruct (match loss_name with
            | None => Ok None
            | Some (PyStr name) =>
                match _get_loss name kwargs with
                | Ok m => Ok (Some m)
                | Raise e => Raise e
                end
            | Some _ => Raise NotImplementedError
            end) as [lo | e]; [| discriminate].
  destruct (translate l) as [entries |] eqn:Htr; [| discriminate].
  injection Hinit as <-. simpl.
  split; [now apply translate_length |].
  exists (mk lo []). simpl. split; [reflexivity |]. split; [reflexivity |].
  destruct (add_all_functions l (mk lo []) Htr) as [H1 H2]. simpl in H1, H2.
  split; [exact H1 |].
  intros predict truth kws. now apply call_depends_on_functions.
Qed.

(** X10: an instance built with [loss_name=None] holds no loss function,
    and no call of it returns: the functions of [pre_pro] are applied, and
    then the call of [None] raises TypeError (unless one of the functions
    raised before); no loss function is ever called. *)
Theorem loss_without_name_cannot_be_called l kwargs (me : t) :
  __init__ None l kwargs = Ok me ->
  _loss me = None
  /\ forall predict truth kws,
       (exists e, fst (__call__ me predict truth kws) = Raise e)
       /\ (forall p t', ~ In (LossCall p t') (snd (__call__ me predict truth kws)))
       /\ (forall q, snd (chain (functions_of (pre_pro me)) kws (predict, truth))
                     = Ok q ->
                     exists msg, fst (__call__ me predict truth kws)
                                 = Raise (TypeError msg)).
Proof.
  unfold __init__. intros Hinit.
  destruct (translate l) as [entries |]; [| discriminate].
  injection Hinit as <-. simpl. split; [reflexivity |].
  intros predict truth kws. unfold __call__. rewrite run_pre_pro_chain. simpl.
  destruct (chain (functions_of entries) kws (predict, truth)) as [seen last].
  simpl. destruct last as [[p t'] | e]; simpl.
  - split; [eexists; reflexivity |]. split.
    + intros p0 t0 Hin. apply in_map_iff in Hin.
      destruct Hin as [x [Hx _]]. discriminate.
    + intros q _. eexists. reflexivity.
  - split; [eexists; reflexivity |]. split.
    + intros p0 t0 Hin. apply in_map_iff in Hin.
      destruct Hin as [x [Hx _]]. discriminate.
    + intros q Hq. discriminate.
Qed.

(** *** Names of loss functions *)

Lemma is_space_lower c : PyString.is_space (PyString.lower_char c) = PyString.is_space c.
Proof. destruct c as [[] [] [] [] [] [] [] []]; reflexivity. Qed.

Lemma lstrip_lower l :
  PyString.lstrip_chars (map PyString.lower_char l)
  = map PyString.lower_char (PyString.lstrip_chars l).
Proof.
  induction l as [| c l IH]; simpl; [reflexivity |].
  rewrite is_space_lower. destruct (PyString.is_space c); [exact IH | reflexivity].
Qed.

Lemma strip_lower l :
  PyString.strip_chars (map PyString.lower_char l)
  = map PyString.lower_char (PyString.strip_chars l).
Proof.
  unfold PyString.strip_chars.
  now rewrite lstrip_lower, <- map_rev, lstrip_lower, map_rev.
Qed.

(** lowering after stripping is stripping after lowering *)
Lemma lower_strip s :
  PyString.lower (PyString.strip s) = PyString.strip (PyString.lower s).
Proof.
  unfold PyString.lower, PyString.strip.
  now rewrite !list_ascii_of_string_of_list_ascii, strip_lower.
Qed.

(** X11: the name of a loss function is read without regard to case: two
    names that [lower()] makes equal give the same outcome of [_get_loss],
    the same instance or the same exception. *)
Theorem get_loss_ignores_case s s' kwargs :
  PyString.lower s = PyString.lower s' ->
  _get_loss s kwargs = _get_loss s' kwargs.
Proof.
  intros H. unfold _get_loss. now rewrite !lower_strip, H.
Qed.

Lemma append_inv_tail (s1 s2 t : string) :
  (s1 ++ t)%string = (s2 ++ t)%string -> s1 = s2.
Proof.
  intros H. apply (f_equal list_ascii_of_string) in H.
  rewrite !list_of_app in H. apply app_inv_tail in H.
  rewrite <- (string_of_list_ascii_of_string s1),
          <- (string_of_list_ascii_of_string s2).
  now rewrite H.
Qed.

Lemma loss_function_name_entries :
  loss_function_name
  = [ ("l1loss", L1Loss); ("bceloss", BCELoss); ("mseloss", MSELoss);
      ("nllloss", NLLLoss); ("kldivloss", KLDivLoss);
      ("nllloss2dloss", NLLLoss2d); ("smoothl1loss", SmoothL1Loss);
      ("softmarginloss", SoftMarginLoss); ("poissonnllloss", PoissonNLLLoss);
      ("multimarginloss", MultiMarginLoss);
      ("crossentropyloss", CrossEntropyLoss);
      ("bcewithlogitsloss", BCEWithLogitsLoss);
      ("marginrankingloss", MarginRankingLoss);
      ("tripletmarginloss", TripletMarginLoss);
      ("hingeembeddingloss", HingeEmbeddingLoss);
      ("cosineembeddingloss", CosineEmbeddingLoss);
      ("multilabelmarginloss", MultiLabelMarginLoss);
      ("multilabelsoftmarginloss", MultiLabelSoftMarginLoss) ].
Proof. reflexivity. Qed.

Lemma stem_of key stem :
  key = (stem ++ "loss")%string ->
  stem = string_of_list_ascii
           (firstn (List.length (list_ascii_of_string key) - 4)
                   (list_ascii_of_string key)).
Proof.
  intros ->. rewrite list_of_app, length_app. simpl.
  replace (List.length (list_ascii_of_string stem) + 4 - 4)
    with (List.length (list_ascii_of_string stem) + 0) by lia.
  rewrite firstn_app_2. simpl. rewrite app_nil_r.
  now rewrite string_of_list_ascii_of_string.
Qed.

(** X12: every key of the table [loss_function_name] selects its own
    class when given as the name, and so does the key without its final
    [loss]: the normalisation leaves the keys of the table as they are and
    puts the ending back. *)
Theorem table_keys_select_their_class key cls kwargs :
  get key loss_function_name = Some cls ->
  _get_loss key kwargs = construct cls kwargs
  /\ forall stem, key = (stem ++ "loss")%string ->
                  _get_loss stem kwargs = construct cls kwargs.
Proof.
  rewrite loss_function_name_entries. simpl. intros H.
  repeat match type of H with
         | (if String.eqb key ?lit then _ else _) = _ =>
             destruct (String.eqb_spec key lit) as [-> | _];
             [ injection H as <-; split;
               [ reflexivity
               | intros stem Hstem; apply stem_of in Hstem; subst stem;
                 reflexivity ]
             | ]
         end.
  discriminate.
Qed.

End WithTorch.

Lemma init_list_is_adding_one_by_one_witness :
  exists me : @t toy_torch,
    @__init__ toy_torch (Some (PyStr "l1"))
              [Callable (tag "a"); Value (PyStr "typo"); Value (PyStr "mask")] []
    = Ok me
    /\ List.length (pre_pro me) = 3
    /\ List.length
         (pre_pro (@add_all toy_torch
                     [Callable (tag "a"); Value (PyStr "typo"); Value (PyStr "mask")]
                     (@mk toy_torch (Some (L1Loss, [])) []))) = 2
    /\ @__call__ toy_torch
         (@add_all toy_torch
            [Callable (tag "a"); Value (PyStr "typo"); Value (PyStr "mask")]
            (@mk toy_torch (Some (L1Loss, [])) []))
         (PyStr "p") scalar []
       = @__call__ toy_torch me (PyStr "p") scalar [].
Proof.
  eexists. split; [reflexivity |].
  destruct (@init_list_is_adding_one_by_one toy_torch (Some (PyStr "l1"))
              [Callable (tag "a"); Value (PyStr "typo"); Value (PyStr "mask")] []
              _ eq_refl) as [Hlen [me0 [Hinit [_ [_ Hcall]]]]].
  split; [exact Hlen |]. split; [reflexivity |].
  injection Hinit as <-. apply Hcall.
Defined.

Lemma loss_without_name_cannot_be_called_witness :
  exists msg,
    fst (@__call__ toy_torch (@mk toy_torch None [Some (@squash toy_torch)])
                   (PyStr "p") scalar [])
    = Raise (TypeError msg).
Proof.
  destruct (@loss_without_name_cannot_be_called toy_torch
              [Value (PyStr "squash")] [] _ eq_refl) as [_ H].
  destruct (H (PyStr "p") scalar []) as [_ [_ Hq]].
  exact (Hq _ eq_refl).
Defined.

Lemma get_loss_ignores_case_witness :
  @_get_loss toy_torch "Cross_Entropy" [] = @_get_loss toy_torch "cross_ENTROPY" [].
Proof. apply get_loss_ignores_case. reflexivity. Defined.

Lemma table_keys_select_their_class_witness :
  @_get_loss toy_torch "nllloss2dloss" [] = Ok (NLLLoss2d, [])
  /\ @_get_loss toy_torch "nllloss2d" [] = Ok (NLLLoss2d, []).
Proof.
  destruct (@table_keys_select_their_class toy_torch "nllloss2dloss" NLLLoss2d []
              eq_refl) as [H1 H2].
  split; [exact H1 | exact (H2 "nllloss2d" eq_refl)].
Defined.

End LossMore.

(** ** Rows, columns and masks *)

Module TensorFacts.
Import Tensors.

Section Lists.
Variable A : Type.
Implicit Types (l : list A) (rows : list (list A)) (m : list bool).

Lemma chunks_length k n l : List.length (chunks k n l) = n.
Proof. revert l. induction n as [| n IH]; intros l; simpl; [reflexivity | now rewrite IH]. Qed.

Lemma chunks_concat k rows :
  Forall (fun r => List.length r = k) rows ->
  chunks k (List.length rows) (List.concat rows) = rows.
Proof.
  induction 1 as [| r rows Hr _ IH]; simpl; [reflexivity |].
  subst k.
  rewrite firstn_app, skipn_app, Nat.sub_diag, firstn_all, skipn_all.
  simpl. now rewrite app_nil_r, IH.
Qed.

Lemma chunks_Forall k n l :
  List.length l = n * k -> Forall (fun r => List.length r = k) (chunks k n l).
Proof.
  revert l. induction n as [| n IH]; intros l Hl; simpl; constructor.
  - rewrite length_firstn. simpl in Hl. lia.
  - apply IH. rewrite length_skipn. simpl in Hl. lia.
Qed.

Lemma concat_chunks k n l :
  List.length l = n * k -> List.concat (chunks k n l) = l.
Proof.
  revert l. induction n as [| n IH]; intros l Hl; simpl.
  - destruct l; [reflexivity | discriminate].
  - rewrite IH by (rewrite length_skipn; simpl in Hl; lia).
    apply firstn_skipn.
Qed.

Lemma columns_length n rows : List.length (columns n rows) = n.
Proof. revert rows. induction n as [| n IH]; intros rows; simpl; [reflexivity | now rewrite IH]. Qed.

(** the columns of a matrix with one more row in front *)
Lemma columns_cons r rows :
  columns (List.length r) (r :: rows)
  = map (fun xc => fst xc :: snd xc) (combine r (columns (List.length r) rows)).
Proof.
  revert rows. induction r as [| x r IH]; intros rows; simpl; [reflexivity |].
  f_equal. apply IH.
Qed.

Lemma heads_cons_each r (cs : list (list A)) :
  List.length cs = List.length r ->
  heads (map (fun xc => fst xc :: snd xc) (combine r cs)) = r.
Proof.
  revert cs. induction r as [| x r IH]; intros cs Hlen; simpl; [reflexivity |].
  destruct cs as [| c cs]; [discriminate |]. simpl. f_equal. apply IH.
  simpl in Hlen. lia.
Qed.

Lemma tails_cons_each r (cs : list (list A)) :
  List.length cs = List.length r ->
  map (@tl A) (map (fun xc => fst xc :: snd xc) (combine r cs)) = cs.
Proof.
  revert cs. induction r as [| x r IH]; intros cs Hlen; simpl.
  - destruct cs; [reflexivity | discriminate].
  - destruct cs as [| c cs]; [discriminate |]. simpl. f_equal. apply IH.
    simpl in Hlen. lia.
Qed.

(** Transposing twice gives the rows back. *)
Lemma columns_columns t rows :
  Forall (fun r => List.length r = t) rows ->
  columns (List.length rows) (columns t rows) = rows.
Proof.
  induction 1 as [| r rows Hr _ IH]; [reflexivity |].
  subst t. rewrite columns_cons.
  cbn [List.length columns].
  rewrite heads_cons_each by apply columns_length.
  rewrite tails_cons_each by apply columns_length.
  now rewrite IH.
Qed.

Lemma select_nil m : select m (@nil A) = [].
Proof. now destruct m. Qed.

Lemma select_app m1 m2 l1 l2 :
  List.length m1 = List.length l1 ->
  select (m1 ++ m2) (l1 ++ l2) = select m1 l1 ++ select m2 l2.
Proof.
  revert l1. induction m1 as [| b m1 IH]; intros l1 Hlen.
  - destruct l1; [reflexivity | discriminate].
  - destruct l1 as [| x l1]; [discriminate |]. simpl.
    rewrite IH by (simpl in Hlen; lia). now destruct b.
Qed.

Lemma select_heads m rows :
  Forall (fun r => r <> []) rows ->
  select m (heads rows) = heads (select m rows).
Proof.
  intros Hne. revert m. induction Hne as [| r rows Hr _ IH]; intros m.
  - now destruct m.
  - destruct r as [| x r]; [congruence |].
    destruct m as [| b m]; [reflexivity |]. cbn.
    destruct b; cbn; now rewrite IH.
Qed.

End Lists.

Lemma select_map (A B : Type) (f : A -> B) m (l : list A) :
  select m (map f l) = map f (select m l).
Proof.
  revert l. induction m as [| b m IH]; intros l; [reflexivity |].
  destruct l as [| x l]; [reflexivity |]. simpl.
  destruct b; simpl; now rewrite IH.
Qed.

(** Selecting in every column is taking the columns of the selected rows. *)
Lemma select_columns (A : Type) m t (rows : list (list A)) :
  Forall (fun r => List.length r = t) rows ->
  map (select m) (columns t rows) = columns t (select m rows).
Proof.
  revert rows. induction t as [| t IH]; intros rows Hall; [reflexivity |].
  simpl. rewrite select_heads.
  - f_equal. rewrite IH.
    + now rewrite select_map.
    + apply Forall_map. eapply Forall_impl; [| exact Hall].
      intros r Hr. destruct r; [discriminate |]. simpl in *. lia.
  - eapply Forall_impl; [| exact Hall]. intros r Hr. destruct r; [discriminate | congruence].
Qed.

Lemma select_Forall (A : Type) (P : A -> Prop) m (l : list A) :
  Forall P l -> Forall P (select m l).
Proof.
  intros H. revert m. induction H as [| x l Hx _ IH]; intros m.
  - rewrite select_nil. constructor.
  - destruct m as [| b m]; [constructor |]. simpl.
    destruct b; [constructor; [assumption | apply IH] | apply IH].
Qed.

(** A mask repeated for every row selects in every row. *)
Lemma select_repeated (A : Type) m (rows : list (list A)) :
  Forall (fun r => List.length r = List.length m) rows ->
  select (List.concat (repeat m (List.length rows))) (List.concat rows)
  = List.concat (map (select m) rows).
Proof.
  induction 1 as [| r rows Hr _ IH]; [reflexivity |].
  simpl. rewrite select_app by congruence. now rewrite IH.
Qed.

Lemma expand_same (A : Type) s : forall data : list A,
  List.length data = numel s -> expand s s data = data.
Proof.
  induction s as [| d ds IH]; intros data Hlen; [reflexivity |].
  simpl. rewrite Nat.eqb_refl. simpl in Hlen.
  assert (Hall : Forall (fun r => List.length r = numel ds)
                        (chunks (numel ds) d data))
    by now apply chunks_Forall.
  rewrite (map_ext_in _ (fun x => x)).
  - rewrite map_id. now apply concat_chunks.
  - intros r Hr. apply IH. rewrite Forall_forall in Hall. now apply Hall.
Qed.

Lemma numel_app s1 s2 : numel (s1 ++ s2) = numel s1 * numel s2.
Proof.
  induction s1 as [| d s1 IH]; simpl; [lia | rewrite IH; lia].
Qed.

Lemma concat_length (A : Type) k (ls : list (list A)) :
  Forall (fun r => List.length r = k) ls ->
  List.length (List.concat ls) = List.length ls * k.
Proof.
  induction 1 as [| r ls Hr _ IH]; simpl; [reflexivity |].
  rewrite length_app, IH, Hr. lia.
Qed.

Lemma heads_length (A : Type) (rows : list (list A)) :
  Forall (fun r => r <> []) rows -> List.length (heads rows) = List.length rows.
Proof.
  induction 1 as [| r rows Hr _ IH]; [reflexivity |].
  destruct r; [congruence |]. cbn. now rewrite <- IH.
Qed.

Lemma columns_Forall (A : Type) t (rows : list (list A)) :
  Forall (fun r => List.length r = t) rows ->
  Forall (fun c => List.length c = List.length rows) (columns t rows).
Proof.
  revert rows. induction t as [| t IH]; intros rows Hall; simpl; constructor.
  - apply heads_length. eapply Forall_impl; [| exact Hall].
    intros r Hr. destruct r; [discriminate | congruence].
  - rewrite <- (length_map (@tl A) rows). apply IH.
    apply Forall_map. eapply Forall_impl; [| exact Hall].
    intros r Hr. destruct r; [discriminate |]. simpl in *. lia.
Qed.

Lemma select_length (A B : Type) m (l1 : list A) (l2 : list B) :
  List.length l1 = List.length l2 ->
  List.length (select m l1) = List.length (select m l2).
Proof.
  revert l1 l2. induction m as [| b m IH]; intros l1 l2 Hlen; [reflexivity |].
  destruct l1, l2; try discriminate; [reflexivity |]. simpl.
  destruct b; simpl; rewrite (IH l1 l2); auto.
Qed.

(** *** [masked_select] of a vector and of a matrix by a vector *)

Lemma broadcast_dim_same a : broadcast_dim a a = Some a.
Proof. unfold broadcast_dim. now rewrite Nat.eqb_refl. Qed.

Lemma broadcast_dim_one a : broadcast_dim a 1 = Some a.
Proof.
  unfold broadcast_dim. destruct (Nat.eqb_spec a 1); [congruence |].
  reflexivity.
Qed.

Lemma expand_cons (A : Type) d ds e es (data : list A) :
  expand (d :: ds) (e :: es) data
  = if (d =? e)%nat
    then List.concat (map (expand ds es) (chunks (numel ds) d data))
    else List.concat
           (repeat (List.concat (map (expand ds es) (chunks (numel ds) d data))) e).
Proof. reflexivity. Qed.

Lemma masked_select_vector (A : Type) n (data : list A) (mk : list bool) :
  List.length data = n ->
  List.length mk = n ->
  masked_select (mkTensor [n] data) (mkTensor [n] mk)
  = Returns (mkTensor [List.length (select mk data)] (select mk data)).
Proof.
  intros Hd Hm. unfold masked_select.
  cbn [size elems List.length Nat.max pad_shape Nat.sub repeat app
       broadcast_shapes].
  rewrite broadcast_dim_same.
  rewrite !(expand_same [n]) by (simpl; lia). reflexivity.
Qed.

Lemma masked_select_matrix (A : Type) r c (data : list A) (mk : list bool) :
  List.length data = r * c ->
  List.length mk = c ->
  masked_select (mkTensor [r; c] data) (mkTensor [c] mk)
  = Returns (mkTensor
               [List.length (List.concat (map (select mk) (chunks c r data)))]
               (List.concat (map (select mk) (chunks c r data)))).
Proof.
  intros Hd Hm. unfold masked_select.
  cbn [size elems List.length Nat.max pad_shape Nat.sub repeat app
       broadcast_shapes].
  rewrite broadcast_dim_one, broadcast_dim_same.
  rewrite (expand_same [r; c]) by (simpl; lia).
  assert (Hmask : expand [1; c] [r; c] mk = List.concat (repeat mk r)).
  { rewrite expand_cons. cbn [chunks map].
    rewrite firstn_all2 by (simpl; lia).
    rewrite (expand_same [c]) by (simpl; lia).
    destruct (Nat.eqb_spec 1 r) as [<- | _]; simpl; now rewrite !app_nil_r. }
  rewrite Hmask.
  assert (Hrows : Forall (fun row => List.length row = List.length mk)
                         (chunks c r data))
    by (rewrite Hm; now apply chunks_Forall).
  assert (Hsel : select (List.concat (repeat mk r)) data
                 = List.concat (map (select mk) (chunks c r data))).
  { transitivity (select (List.concat (repeat mk (List.length (chunks c r data))))
                         (List.concat (chunks c r data))).
    - now rewrite chunks_length, concat_chunks.
    - now apply select_repeated. }
  now rewrite Hsel.
Qed.

(** *** Masks made of a run of ones *)

Lemma map_constant (X Y : Type) (f : X -> Y) c (l : list X) :
  (forall x, In x l -> f x = c) -> map f l = repeat c (List.length l).
Proof.
  induction l as [| x l IH]; intros H; simpl; [reflexivity |].
  rewrite (H x (or_introl eq_refl)), IH; [reflexivity |].
  intros y Hy. apply H. now right.
Qed.

Lemma select_ones (A : Type) (l : list A) :
  select (repeat true (List.length l)) l = l.
Proof. induction l as [| x l IH]; simpl; [reflexivity | now rewrite IH]. Qed.

Lemma select_zeros (A : Type) n (l : list A) :
  select (repeat false n) l = [].
Proof.
  revert l. induction n as [| n IH]; intros l; simpl; [reflexivity |].
  destruct l; [reflexivity | apply IH].
Qed.

Lemma select_prefix (A : Type) k j (row : list A) :
  k <= List.length row ->
  select (repeat true k ++ repeat false j) row = firstn k row.
Proof.
  intros Hk. rewrite <- (firstn_skipn k row) at 1.
  rewrite select_app by (rewrite repeat_length, length_firstn; lia).
  rewrite select_zeros, app_nil_r.
  replace k with (List.length (firstn k row)) at 1
    by (rewrite length_firstn; lia).
  apply select_ones.
Qed.

Lemma heads_map_cons (X Y : Type) (a : X -> Y) (r : X -> list Y) (l : list X) :
  heads (map (fun i => a i :: r i) l) = map a l.
Proof. induction l as [| i l IH]; cbn; [reflexivity | now rewrite <- IH]. Qed.

(** the columns of a table given column by column are its rows *)
Lemma columns_of_table (X Y V : Type) (f : X -> Y -> V) (xs : list X) (ys : list Y) :
  columns (List.length xs) (map (fun y => map (fun x => f x y) xs) ys)
  = map (fun x => map (fun y => f x y) ys) xs.
Proof.
  induction xs as [| x xs IH]; [reflexivity |].
  cbn [List.length columns map].
  rewrite (heads_map_cons (fun y => f x y) (fun y => map (fun x => f x y) xs)).
  rewrite map_map. cbn [tl]. now rewrite IH.
Qed.

End TensorFacts.

(** ** squash, mask, make_mask, unpad_mask *)

Module PreProcessSpec.
Import Tensors PreProcess TensorFacts.

Section Functions.
Variables A B : Type.

Lemma size_last_app (t : tensor A) s d :
  size t = s ++ [d] -> size_last t = Returns d.
Proof. intros H. unfold size_last. now rewrite H, rev_app_distr. Qed.

Lemma infer_dim_last (X : Type) (t : tensor X) s d :
  size t = s ++ [d] -> 0 < d -> infer_dim t d = Returns (numel s).
Proof.
  intros H Hd. unfold infer_dim. rewrite H, numel_app. simpl.
  rewrite Nat.mul_1_r.
  destruct (Nat.eqb_spec d 0); [lia |].
  rewrite Nat.Div0.mod_mul, Nat.eqb_refl, Nat.div_mul by lia. reflexivity.
Qed.

Lemma squash_ok (predict : tensor A) (truth : tensor B) kw s d :
  size predict = s ++ [d] -> 0 < d ->
  squash predict truth kw
  = Returns (mkTensor [numel s; d] (elems predict),
             mkTensor [numel (size truth)] (elems truth)).
Proof.
  intros H Hd. unfold squash, view_rows, view_flat.
  now rewrite (@size_last_app predict s d H), (@infer_dim_last A predict s d H Hd).
Qed.

(** X13: [squash] turns [predict] into a matrix whose rows have the length
    of the last dimension of [predict], and [truth] into a vector; the
    elements stay as they are, in their order, and the keyword arguments
    are not read.  A [predict] without dimension raises IndexError, and one
    whose last dimension is 0 raises RuntimeError. *)
Theorem squash_reshapes (predict : tensor A) (truth : tensor B) kw :
  (size predict = [] ->
   exists msg, squash predict truth kw = Raises (IndexError msg))
  /\ (forall s, size predict = s ++ [0] ->
                exists msg, squash predict truth kw
                            = Raises (Std (RuntimeError msg)))
  /\ (forall s d, size predict = s ++ [d] -> 0 < d ->
                  squash predict truth kw
                  = Returns (mkTensor [numel s; d] (elems predict),
                             mkTensor [numel (size truth)] (elems truth))).
Proof.
  split; [| split].
  - intros H. unfold squash, size_last. rewrite H. eexists. reflexivity.
  - intros s H. unfold squash, view_rows, infer_dim.
    rewrite (@size_last_app predict s 0 H). simpl. eexists. reflexivity.
  - intros s d H Hd. now apply squash_ok.
Qed.

(** what [mask] returns when a mask of as many elements as [predict] has
    rows is given *)
Lemma mask_ok (predict : tensor A) (truth : tensor B) (m : tensor bool) lens s d :
  size predict = s ++ [d] -> 0 < d ->
  List.length (elems predict) = numel s * d ->
  List.length (elems truth) = numel s ->
  numel (size truth) = numel s ->
  List.length (elems m) = numel s ->
  numel (size m) = numel s ->
  let rows := select (elems m) (chunks d (numel s) (elems predict)) in
  mask predict truth (mkKwargs lens (Some m))
  = Returns (mkTensor [List.length rows; d] (List.concat rows),
             mkTensor [List.length (select (elems m) (elems truth))]
                      (select (elems m) (elems truth))).
Proof.
  intros Hsize Hd Hp Ht Hts Hm Hms rows.
  set (n := numel s) in *.
  assert (Hrows : Forall (fun r => List.length r = d)
                         (chunks d n (elems predict)))
    by now apply chunks_Forall.
  assert (Hsel : Forall (fun r => List.length r = d) rows)
    by now apply select_Forall.
  unfold mask. cbn [kw_mask].
  rewrite (@squash_ok predict truth (mkKwargs None None) s d Hsize Hd).
  fold n. rewrite Hts.
  unfold permute_1_0 at 1. cbn [size elems]. unfold view_flat. rewrite Hms.
  cbn [size elems]. unfold transpose.
  assert (HcolsF : Forall (fun c => List.length c = n)
                          (columns d (chunks d n (elems predict)))).
  { pose proof (columns_Forall Hrows) as H. now rewrite chunks_length in H. }
  rewrite masked_select_matrix; cycle 1.
  { rewrite (concat_length HcolsF). now rewrite columns_length. }
  { exact Hm. }
  assert (Hcols : chunks n d (List.concat (columns d (chunks d n (elems predict))))
                  = columns d (chunks d n (elems predict))).
  { pose proof (chunks_concat HcolsF) as H. now rewrite columns_length in H. }
  rewrite Hcols, (select_columns (elems m) Hrows). fold rows.
  assert (HselF : Forall (fun c => List.length c = List.length rows)
                         (columns d rows))
    by now apply columns_Forall.
  assert (Hlen : List.length (List.concat (columns d rows))
                 = d * List.length rows).
  { rewrite (concat_length HselF). now rewrite columns_length. }
  unfold size_last. cbn [size rev app].
  unfold view_cols, infer_dim. cbn [size elems numel fold_right].
  rewrite Hlen, Nat.mul_1_r.
  destruct (Nat.eqb_spec d 0); [lia |].
  rewrite (Nat.mul_comm d), Nat.Div0.mod_mul, Nat.eqb_refl, Nat.div_mul by lia.
  unfold permute_1_0. cbn [size elems]. unfold transpose.
  assert (Hback : chunks (List.length rows) d (List.concat (columns d rows))
                  = columns d rows).
  { pose proof (chunks_concat HselF) as H. now rewrite columns_length in H. }
  rewrite Hback, (columns_columns Hsel).
  rewrite masked_select_vector by assumption.
  reflexivity.
Qed.

(** X14: without a mask, [mask] returns [predict] and [truth] as they
    are, not squashed.  With a mask that has one element for every row of
    the squashed [predict], it returns the rows of [predict] at the places
    where the mask is set, in their order, and the elements of [truth]
    at the same places. *)
Theorem mask_selects_rows :
  (forall (predict : tensor A) (truth : tensor B) lens,
      mask predict truth (mkKwargs lens None) = Returns (predict, truth))
  /\ (forall (predict : tensor A) (truth : tensor B) (m : tensor bool) lens s d,
        size predict = s ++ [d] -> 0 < d ->
        well_formed predict -> well_formed truth -> well_formed m ->
        numel (size truth) = numel s ->
        numel (size m) = numel s ->
        let rows := select (elems m) (chunks d (numel s) (elems predict)) in
        let kept_truth := select (elems m) (elems truth) in
        mask predict truth (mkKwargs lens (Some m))
        = Returns (mkTensor [List.length rows; d] (List.concat rows),
                   mkTensor [List.length kept_truth] kept_truth)
        /\ List.length rows = List.length kept_truth).
Proof.
  split; [reflexivity |].
  intros predict truth m lens s d Hsize Hd Hp Ht Hm Hts Hms.
  unfold well_formed in *. rewrite Hsize, numel_app in Hp. simpl in Hp.
  rewrite Nat.mul_1_r in Hp. rewrite Hts in Ht. rewrite Hms in Hm.
  split; [now apply mask_ok |].
  apply select_length. now rewrite chunks_length.
Qed.

Lemma unpadded_select (X : Type) max_len lens : forall items : list X,
  List.length items = List.length lens * max_len ->
  select (List.concat
            (map (fun l => repeat true (kept max_len l)
                           ++ repeat false (max_len - kept max_len l)) lens))
         items
  = unpadded max_len lens items.
Proof.
  induction lens as [| l lens IH]; intros items Hlen; [reflexivity |].
  cbn [map List.concat unpadded]. simpl in Hlen.
  assert (Hk : kept max_len l <= max_len) by (unfold kept; lia).
  rewrite <- (firstn_skipn max_len items) at 1.
  rewrite select_app
    by (rewrite length_app, !repeat_length, length_firstn; lia).
  rewrite select_prefix by (rewrite length_firstn; lia).
  rewrite IH by (rewrite length_skipn; lia).
  reflexivity.
Qed.

Lemma unpadded_length (X : Type) max_len lens : forall items : list X,
  List.length items = List.length lens * max_len ->
  List.length (unpadded max_len lens items) = list_sum (map (kept max_len) lens).
Proof.
  induction lens as [| l lens IH]; intros items Hlen; [reflexivity |].
  cbn [map unpadded]. simpl in Hlen.
  assert (Hk : kept max_len l <= max_len) by (unfold kept; lia).
  rewrite length_app, !length_firstn, IH by (rewrite length_skipn; lia).
  change (list_sum (kept max_len l :: map (kept max_len) lens))
    with (kept max_len l + list_sum (map (kept max_len) lens)).
  lia.
Qed.

Lemma unpadded_full (X : Type) max_len lens : forall items : list X,
  List.length items = List.length lens * max_len ->
  Forall (fun l => (Z.of_nat max_len <= l)%Z) lens ->
  unpadded max_len lens items = items.
Proof.
  induction lens as [| l lens IH]; intros items Hlen Hall.
  - destruct items; [reflexivity | discriminate].
  - inversion Hall as [| ? ? Hl Hall']; subst. cbn [unpadded].
    simpl in Hlen.
    replace (kept max_len l) with max_len by (unfold kept; lia).
    rewrite firstn_firstn, Nat.min_id, IH;
      [apply firstn_skipn | rewrite length_skipn; lia | assumption].
Qed.

End Functions.

(** the row of the mask for a sequence of length [l] *)
Lemma mask_row n l :
  map (fun i => (i + 1 <=? l)%Z) (map Z.of_nat (seq 0 n))
  = repeat true (kept n l) ++ repeat false (n - kept n l).
Proof.
  assert (Hk : kept n l <= n) by (unfold kept; lia).
  replace n with (kept n l + (n - kept n l)) at 1 by lia.
  rewrite seq_app, !map_app. f_equal.
  - rewrite map_map, (@map_constant nat bool _ true); [now rewrite length_seq |].
    intros i Hi. apply in_seq in Hi.
    destruct (Z.leb_spec (Z.of_nat i + 1) l); [reflexivity |].
    unfold kept in *. lia.
  - rewrite map_map, (@map_constant nat bool _ false); [now rewrite length_seq |].
    intros i Hi. apply in_seq in Hi.
    destruct (Z.leb_spec (Z.of_nat i + 1) l); [| reflexivity].
    unfold kept in *. lia.
Qed.

Lemma make_mask_ok lens tar_len :
  forallb int64 lens = true ->
  (0 < tar_len)%Z ->
  let n := Z.to_nat tar_len in
  make_mask lens tar_len
  = Returns (mkTensor [List.length lens; n]
               (List.concat
                  (map (fun l => repeat true (kept n l) ++ repeat false (n - kept n l))
                       lens))).
Proof.
  intros Hfit Hpos n. unfold make_mask, LongTensor. rewrite Hfit.
  unfold range. fold n. unfold ge.
  assert (Hn : exists n', n = S n') by (exists (Nat.pred n); lia).
  destruct Hn as [n' Hn].
  unfold stack_1.
  destruct (map (fun i => map (fun l => (i + 1 <=? l)%Z) lens)
                (map Z.of_nat (seq 0 n))) as [| t0 ts] eqn:Hts.
  { rewrite Hn in Hts. discriminate. }
  assert (Hall : forall t, In t (t0 :: ts) -> List.length t = List.length lens).
  { intros t Hin. rewrite <- Hts in Hin. apply in_map_iff in Hin.
    destruct Hin as [i [<- _]]. apply length_map. }
  assert (Hforall : forallb (fun t => (List.length t =? List.length t0)%nat)
                            (t0 :: ts) = true).
  { apply forallb_forall. intros t Hin. apply Nat.eqb_eq.
    rewrite (Hall t Hin), (Hall t0 (or_introl eq_refl)). reflexivity. }
  rewrite Hforall, (Hall t0 (or_introl eq_refl)).
  rewrite <- Hts, !length_map, length_seq.
  rewrite (columns_of_table
             (fun l i => (i + 1 <=? l)%Z)
             lens (map Z.of_nat (seq 0 n))).
  do 3 f_equal. apply map_ext. intros l. apply mask_row.
Qed.

(** X15: [make_mask(lens, tar_len)], for lengths that fit 64 bits and a
    positive [tar_len], is a matrix with a row for every length and
    [tar_len] columns, whose row for the length [l] is set at its first
    [min(l, tar_len)] places (none for [l <= 0]) and clear after them.  With
    [tar_len <= 0] there is nothing to stack and it raises RuntimeError. *)
Theorem make_mask_rows lens tar_len :
  (forallb int64 lens = true -> (tar_len <= 0)%Z ->
      exists msg, make_mask lens tar_len = Raises (Std (RuntimeError msg)))
  /\ (forallb int64 lens = true -> (0 < tar_len)%Z ->
      let n := Z.to_nat tar_len in
      make_mask lens tar_len
      = Returns (mkTensor [List.length lens; n]
                   (List.concat
                      (map (fun l => repeat true (kept n l)
                                     ++ repeat false (n - kept n l))
                           lens)))).
Proof.
  split.
  - intros H Hle. unfold make_mask, LongTensor, range. rewrite H.
    replace (Z.to_nat tar_len) with 0 by lia. eexists. reflexivity.
  - intros H Hpos. now apply make_mask_ok.
Qed.

Section Unpad.
Variables A B : Type.

Lemma unpad_mask_ok (predict : tensor A) (truth : tensor B) lens m b max_len s d :
  size truth = [b; max_len] ->
  List.length lens = b ->
  forallb int64 lens = true ->
  0 < max_len ->
  size predict = s ++ [d] ->
  numel s = b * max_len ->
  0 < d ->
  well_formed predict ->
  well_formed truth ->
  let rows := unpadded max_len lens (chunks d (b * max_len) (elems predict)) in
  let kept_truth := unpadded max_len lens (elems truth) in
  unpad_mask predict truth (mkKwargs (Some lens) m)
  = Returns (mkTensor [List.length rows; d] (List.concat rows),
             mkTensor [List.length kept_truth] kept_truth).
Proof.
  intros Hts Hlens Hfit HL Hps Hn Hd Hp Ht rows kept_truth.
  unfold well_formed in *. rewrite Hps, numel_app in Hp. simpl in Hp.
  rewrite Nat.mul_1_r, Hn in Hp.
  rewrite Hts in Ht. simpl in Ht. rewrite Nat.mul_1_r in Ht.
  unfold unpad_mask. cbn [kw_lens]. unfold size_at_1. rewrite Hts.
  cbn [nth_error].
  rewrite make_mask_ok by (assumption || lia).
  rewrite Nat2Z.id.
  set (mk := List.concat
               (map (fun l => repeat true (kept max_len l)
                              ++ repeat false (max_len - kept max_len l)) lens)).
  assert (Hmk : List.length mk = b * max_len).
  { unfold mk. rewrite (concat_length (k:=max_len)).
    - now rewrite length_map, Hlens.
    - apply Forall_map. apply Forall_forall. intros l _.
      rewrite length_app, !repeat_length. unfold kept. lia. }
  rewrite (@mask_ok A B predict truth (mkTensor [List.length lens; max_len] mk)
                    None s d Hps Hd);
    cbn [size elems numel fold_right]; rewrite ?Hts; cbn [numel fold_right];
    rewrite ?Hn, ?Hlens; try lia.
  unfold mk.
  rewrite !unpadded_select
    by (rewrite ?chunks_length; lia).
  reflexivity.
Qed.

(** X16: without [lens], [unpad_mask] returns [predict] and [truth] as
    they are.  With the lengths of the sequences of a batch ([truth] of
    size batch by [max_len], positive [max_len], as many lengths as
    sequences), it keeps of every sequence its first [min(length, max_len)]
    positions and drops the rest: the rows of [predict] and the elements of
    [truth] at these positions, sequence after sequence, as many as the
    kept lengths add up to. *)
Theorem unpad_mask_keeps_prefixes :
  (forall (predict : tensor A) (truth : tensor B) m,
      unpad_mask predict truth (mkKwargs None m) = Returns (predict, truth))
  /\ (forall (predict : tensor A) (truth : tensor B) lens m b max_len s d,
        size truth = [b; max_len] ->
        List.length lens = b ->
        forallb int64 lens = true ->
        0 < max_len ->
        size predict = s ++ [d] ->
        numel s = b * max_len ->
        0 < d ->
        well_formed predict ->
        well_formed truth ->
        let total := list_sum (map (kept max_len) lens) in
        unpad_mask predict truth (mkKwargs (Some lens) m)
        = Returns
            (mkTensor [total; d]
               (List.concat
                  (unpadded max_len lens (chunks d (b * max_len) (elems predict)))),
             mkTensor [total] (unpadded max_len lens (elems truth)))).
Proof.
  split; [reflexivity |].
  intros predict truth lens m b max_len s d Hts Hlens Hfit HL Hps Hn Hd Hp Ht.
  simpl.
  rewrite (@unpad_mask_ok predict truth lens m b max_len s d) by assumption.
  unfold well_formed in Ht. rewrite Hts in Ht. simpl in Ht.
  rewrite Nat.mul_1_r in Ht.
  rewrite !unpadded_length by (rewrite ?chunks_length; lia).
  reflexivity.
Qed.

(** X17: when every length is at least [max_len], nothing is padding, and
    [unpad_mask] returns what [squash] returns. *)
Theorem unpad_mask_full_is_squash
    (predict : tensor A) (truth : tensor B) lens m b max_len s d :
  size truth = [b; max_len] ->
  List.length lens = b ->
  forallb int64 lens = true ->
  0 < max_len ->
  size predict = s ++ [d] ->
  numel s = b * max_len ->
  0 < d ->
  well_formed predict ->
  well_formed truth ->
  Forall (fun l => (Z.of_nat max_len <= l)%Z) lens ->
  unpad_mask predict truth (mkKwargs (Some lens) m)
  = squash predict truth (mkKwargs (Some lens) m).
Proof.
  intros Hts Hlens Hfit HL Hps Hn Hd Hp Ht Hfull.
  rewrite (@unpad_mask_ok predict truth lens m b max_len s d) by assumption.
  rewrite (@squash_ok A B predict truth (mkKwargs (Some lens) m) s d Hps Hd).
  unfold well_formed in *. rewrite Hps, numel_app in Hp. simpl in Hp.
  rewrite Nat.mul_1_r, Hn in Hp.
  rewrite Hts in Ht |- *. simpl in Ht |- *. rewrite Nat.mul_1_r in Ht |- *.
  rewrite !unpadded_full by (rewrite ?chunks_length; assumption || lia).
  rewrite chunks_length, concat_chunks, Hn by assumption.
  now rewrite Ht.
Qed.

End Unpad.

Import TensorExamples.

Lemma squash_reshapes_witness :
  squash scores labels (mkKwargs None None)
  = Returns (mkTensor [6; 2] (elems scores), mkTensor [6] (elems labels)).
Proof.
  destruct (squash_reshapes scores labels (mkKwargs None None)) as [_ [_ H]].
  apply (H [2; 3] 2); [reflexivity | lia].
Defined.

Lemma mask_selects_rows_witness :
  mask scores labels (mkKwargs None (Some chosen))
  = Returns (mkTensor [3; 2] [1; 2; 3; 4; 7; 8]%Z, mkTensor [3] [21; 22; 24]%Z).
Proof.
  destruct (mask_selects_rows Z Z) as [_ H].
  destruct (H scores labels chosen None [2; 3] 2) as [Heq _];
    [ reflexivity | lia | reflexivity | reflexivity | reflexivity
    | reflexivity | reflexivity | ].
  exact Heq.
Defined.

Lemma make_mask_rows_witness :
  make_mask [2; 7; -1]%Z 3
  = Returns (mkTensor [3; 3] [true; true; false;
                              true; true; true;
                              false; false; false])
  /\ exists msg, make_mask [2; 7; -1]%Z 0 = Raises (Std (RuntimeError msg)).
Proof.
  destruct (make_mask_rows [2; 7; -1]%Z 3) as [_ H3].
  destruct (make_mask_rows [2; 7; -1]%Z 0) as [H0 _].
  split.
  - exact (H3 eq_refl eq_refl).
  - apply H0; [reflexivity | lia].
Defined.

Lemma unpad_mask_keeps_prefixes_witness :
  unpad_mask scores labels (mkKwargs (Some [2; 1]%Z) None)
  = Returns (mkTensor [3; 2] [1; 2; 3; 4; 7; 8]%Z, mkTensor [3] [21; 22; 24]%Z).
Proof.
  destruct (unpad_mask_keeps_prefixes Z Z) as [_ H].
  exact (H scores labels [2; 1]%Z None 2 3 [2; 3] 2
           eq_refl eq_refl eq_refl (Nat.lt_0_succ 2) eq_refl eq_refl
           (Nat.lt_0_succ 1) eq_refl eq_refl).
Defined.

Lemma unpad_mask_full_is_squash_witness :
  unpad_mask scores labels (mkKwargs (Some [3; 9]%Z) None)
  = squash scores labels (mkKwargs (Some [3; 9]%Z) None).
Proof.
  apply (@unpad_mask_full_is_squash Z Z scores labels [3; 9]%Z None 2 3 [2; 3] 2);
    try reflexivity; try lia.
  repeat constructor; lia.
Defined.

End PreProcessSpec.
